(** * ntuphys_nb: the numerical kernels of the scattering and entanglement notebooks

    The notebooks' Python cells are embedded as Rocq functions.

    - numpy's float64 and complex128 are idealised as the real numbers [R]
      and as pairs of reals [C]: rounding is not modelled.
    - numpy's global random generator is an explicit tape of future draws,
      threaded through every function that samples.
    - Python exceptions are explicit results. *)

From Stdlib Require Import Reals Lra Lia ZArith List String FunctionalExtensionality.
From stdpp Require Import gmap strings.
Import ListNotations.

(** ** Python results *)

Inductive exn : Type :=
  | AssertionError
  | ZeroDivisionError
  | ValueError
  | TypeError
  | AttributeError
  | NameError (name : string).

Inductive result (A : Type) : Type :=
  | Ok (a : A)
  | Raise (e : exn).
Arguments Ok {A} a.
Arguments Raise {A} e.

Definition result_bind {A B : Type} (r : result A) (k : A -> result B) : result B :=
  match r with
  | Ok a => k a
  | Raise e => Raise e
  end.

Declare Scope result_scope.
Delimit Scope result_scope with result.
Notation "x <- r ;; k" := (result_bind r (fun x => k))
  (at level 100, r at next level, right associativity) : result_scope.

(** [assert b] *)
Definition py_assert (b : bool) : result unit :=
  if b then Ok tt else Raise AssertionError.

(** [a // b] on Python ints: floor division, as [Z.div]. *)
Definition floordiv (a b : Z) : result Z :=
  if Z.eq_dec b 0%Z then Raise ZeroDivisionError else Ok (a / b)%Z.

(** [a / b] on Python ints: true division, a float. *)
Definition truediv (a b : Z) : result R :=
  if Z.eq_dec b 0%Z then Raise ZeroDivisionError else Ok (IZR a / IZR b)%R.

Definition result_map {A B : Type} (f : A -> B) (r : result A) : result B :=
  match r with
  | Ok a => Ok (f a)
  | Raise e => Raise e
  end.

(** ** Complex numbers (complex128, idealised) *)

Module Cplx.
Local Open Scope R_scope.

Record C : Type := mkC { Re : R; Im : R }.

Definition RtoC (x : R) : C := mkC x 0.
Definition Ci : C := mkC 0 1.
Definition C0 : C := RtoC 0.
Definition C1 : C := RtoC 1.

Definition Cadd (z w : C) : C := mkC (Re z + Re w) (Im z + Im w).
Definition Copp (z : C) : C := mkC (- Re z) (- Im z).
Definition Csub (z w : C) : C := Cadd z (Copp w).
Definition Cmul (z w : C) : C :=
  mkC (Re z * Re w - Im z * Im w) (Re z * Im w + Im z * Re w).
Definition Cconj (z : C) : C := mkC (Re z) (- Im z).
Definition Cnorm2 (z : C) : R := Re z * Re z + Im z * Im z.
Definition Cinv (z : C) : C := mkC (Re z / Cnorm2 z) (- Im z / Cnorm2 z).
Definition Cdiv (z w : C) : C := Cmul z (Cinv w).

(** [np.exp] on a complex argument. *)
Definition Cexp (z : C) : C :=
  mkC (exp (Re z) * cos (Im z)) (exp (Re z) * sin (Im z)).

Fixpoint Csum (l : list C) : C :=
  match l with
  | [] => C0
  | z :: l' => Cadd z (Csum l')
  end.

End Cplx.
Import Cplx.

(** ** The scattering notebook: first Born term by Monte Carlo integration *)

Module Born.
Local Open Scope R_scope.

(** A length-3 float array. *)
Definition Vec3 : Type := (R * R * R)%type.

Definition vsub (a b : Vec3) : Vec3 :=
  let '(a0, a1, a2) := a in
  let '(b0, b1, b2) := b in
  (a0 - b0, a1 - b1, a2 - b2).

(** [np.dot] of two length-3 arrays. *)
Definition dot (a b : Vec3) : R :=
  let '(a0, a1, a2) := a in
  let '(b0, b1, b2) := b in
  a0 * b0 + a1 * b1 + a2 * b2.

Definition norm (a : Vec3) : R := sqrt (dot a a).

(** The state of numpy's global generator: the draws it will return, each
    one call of [np.random.random(3)]. *)
Definition tape : Type := nat -> Vec3.

Definition random3 (g : tape) : Vec3 * tape := (g 0%nat, fun n => g (S n)).

Definition tape_drop (n : nat) (g : tape) : tape := fun m => g (n + m)%nat.

Fixpoint tape_take (n : nat) (g : tape) : list Vec3 :=
  match n with
  | O => []
  | S n' => g 0%nat :: tape_take n' (fun m => g (S m))
  end.



(** [2 * L * u - L], elementwise. *)
Definition sample_point (L : R) (u : Vec3) : Vec3 :=
  let '(u0, u1, u2) := u in
  (2 * L * u0 - L, 2 * L * u1 - L, 2 * L * u2 - L).



(** The guard of [fborn1]'s assertion. *)
Definition magnitudes_match (ki kf : Vec3) : Prop :=
  Rabs (dot ki ki - dot kf kf) < 1e-5.

Section fborn.
Variable Vfun : Vec3 -> C.
Variables ki kf : Vec3.
Variable L : R.

(** The term one iteration adds to [f1]:
    [- Vfun(r1) * np.exp(1j * dkr) / (2 * np.pi)]. *)
Definition fborn1_term (r1 : Vec3) : C :=
  let dkr := dot (vsub ki kf) r1 in
  Cdiv (Cmul (Copp (Vfun r1)) (Cexp (Cmul Ci (RtoC dkr)))) (RtoC (2 * PI)).

(** [for n in range(N)], with [n] iterations left. *)
Fixpoint fborn1_loop (n : nat) (f1 : C) (g : tape) : C * tape :=
  match n with
  | O => (f1, g)
  | S n' =>
      let '(u, g') := random3 g in
      let r1 := sample_point L u in
      fborn1_loop n' (Cadd f1 (fborn1_term r1)) g'
  end.

Definition fborn1 (N : Z) (g : tape) : result C * tape :=
  if Rlt_dec (Rabs (dot ki ki - dot kf kf)) 1e-5 then
    let volume := (2 * L) ^ 3 in
    let '(f1, g') := fborn1_loop (Z.to_nat N) C0 g in
    (result_map (fun q => Cmul (RtoC (q * volume)) f1) (truediv 1 N), g')
  else (Raise AssertionError, g).

End fborn.


Definition V1 (r : Vec3) : R :=
  if Rlt_dec (Rabs (dot r r)) 1.0 then 0.1 else 0.0.

(** *** What the notebook says [fborn1] computes *)

(** The integrand of the first Born term at a sampling point:
    -(1/(2 pi)) V(r) exp(i (ki - kf) . r). *)
Definition born1_integrand (Vfun : Vec3 -> C) (ki kf r : Vec3) : C :=
  Cmul (RtoC (- (1 / (2 * PI))))
       (Cmul (Vfun r) (Cexp (Cmul Ci (RtoC (dot (vsub ki kf) r))))).

(** The first [N] sampling points drawn from the generator. *)
Definition sample_points (L : R) (N : nat) (g : tape) : list Vec3 :=
  map (sample_point L) (tape_take N g).



Definition cube_volume (L : R) : R := (2 * L) ^ 3.

Definition result_conj (r : result C * tape) : result C * tape :=
  (result_map Cconj (fst r), snd r).

Definition real_valued (Vfun : Vec3 -> C) : Prop := forall r, Im (Vfun r) = 0.

(** [V1] passed as [Vfun]: its float is read as a complex number. *)
Definition V1_potential (r : Vec3) : C := RtoC (V1 r).

(** [N=5000] in the signatures of [fborn1] and [fborn2]. *)
Definition default_N : Z := 5000.

(** The call of the plotting cell at energy [E]: [ki] along z and [kf]
    along x, both of length k = sqrt(2 E), with L = 1.0 and the default N. *)
Definition fvec_entry (E : R) (g : tape) : result C * tape :=
  let k := sqrt (2 * E) in
  fborn1 V1_potential (0, 0, k) (k, 0, 0) 1.0 default_N g.

(** *** Inputs used in examples *)

(** A generator that keeps returning the centre of the unit cube. *)
Definition half_tape : tape := fun _ => (1 / 2, 1 / 2, 1 / 2).

(** The plotting cell's wavevectors at k = 1: [ki] along z, [kf] along x. *)
Definition ki_z : Vec3 := (0, 0, 1).
Definition kf_x : Vec3 := (1, 0, 0).

(** *** Potentials and generator states compared *)

(** The sum of two potentials, and a potential times a constant. *)
Definition Vadd (V W : Vec3 -> C) (r : Vec3) : C := Cadd (V r) (W r).
Definition Vscale (c : C) (V : Vec3 -> C) (r : Vec3) : C := Cmul c (V r).

(** A potential of modulus at most [M] everywhere. *)
Definition bounded_by (M : R) (V : Vec3 -> C) : Prop :=
  forall r, Cnorm2 (V r) <= M * M.

(** Two results combined when both calls returned. *)
Definition result_lift2 {A : Type} (f : A -> A -> A) (r1 r2 : result A) : result A :=
  match r1, r2 with
  | Ok a, Ok b => Ok (f a b)
  | Raise e, _ => Raise e
  | _, Raise e => Raise e
  end.

(** Two generator states whose next [n] draws are the same. *)
Definition agree_upto (n : nat) (g1 g2 : tape) : Prop :=
  forall i, (i < n)%nat -> g1 i = g2 i.

(** A generator that agrees with [half_tape] on three draws only. *)
Definition half_then_origin : tape :=
  fun i => if (i <? 3)%nat then (1 / 2, 1 / 2, 1 / 2) else (0, 0, 0).

End Born.

(** ** The scattering notebook: the plotting cell

    The cell that fills [fvec] with one amplitude per energy.  The progress
    bar and the plot are display only and are left out. *)

Module PlotCell.
Import Born.
Local Open Scope R_scope.

(** What can stop the cell: an index out of range, or an exception of
    the function it calls. *)
Inductive cell_exn : Type :=
  | IndexError
  | Raised (e : exn).

(** [np.linspace(start, stop, num)] *)
Definition linspace (start stop : R) (num : nat) : list R :=
  map (fun i => start + INR i * ((stop - start) / INR (num - 1))) (seq 0 num).

(** One turn of [for n in range(nd)]: read [Evec[n]], call [fborn1] with
    [ki] along z and [kf] along x, store the result in [fvec[n]]. *)
Definition plot_step (Evec : list R) (L : R) (n : nat) (fvec : list C) (g : tape)
  : (cell_exn + list C) * tape :=
  match Evec !! n with
  | None => (inl IndexError, g)
  | Some E =>
      let k := sqrt (2 * E) in
      match fborn1 V1_potential (0, 0, k) (k, 0, 0) L default_N g with
      | (Raise e, g') => (inl (Raised e), g')
      | (Ok f, g') =>
          if (n <? length fvec)%nat then (inr (<[n := f]> fvec), g')
          else (inl IndexError, g')
      end
  end.

Fixpoint plot_loop (Evec : list R) (L : R) (ns : list nat) (fvec : list C) (g : tape)
  : (cell_exn + list C) * tape :=
  match ns with
  | [] => (inr fvec, g)
  | n :: ns' =>
      match plot_step Evec L n fvec g with
      | (inr fvec', g') => plot_loop Evec L ns' fvec' g'
      | (inl e, g') => (inl e, g')
      end
  end.

Definition nd : nat := 20.
Definition Emin : R := 0.1.
Definition Emax : R := 4.0.
Definition L : R := 1.0.

(** [Evec = np.linspace(Emin, Emax, nd)] *)
Definition Evec : list R := linspace Emin Emax nd.

(** The cell: [fvec = np.zeros(len(Evec), dtype=complex)], then the loop. *)
Definition plot_cell (g : tape) : (cell_exn + list C) * tape :=
  plot_loop Evec L (seq 0 nd) (repeat C0 (length Evec)) g.

(** The amplitude the cell stores for energy [E] when the generator is in
    state [g]. *)
Definition amplitude_at (E : R) (g : tape) : result C :=
  fst (fborn1 V1_potential (0, 0, sqrt (2 * E)) (sqrt (2 * E), 0, 0) L default_N g).

End PlotCell.

(** ** The entanglement notebook: reduced density matrices *)

Module Entanglement.
Local Open Scope R_scope.

(** A 1-d complex array. *)
Definition ndarray1 : Type := list C.

(** A 2-d complex array: its shape and its items. *)
Record ndarray2 : Type := mk2 { shape0 : nat; shape1 : nat; item : nat -> nat -> C }.

Definition eye (n : nat) : ndarray2 :=
  mk2 n n (fun i j => if Nat.eqb i j then C1 else C0).

(** [np.eye(n)] on a Python int: negative dimensions are refused. *)
Definition np_eye (n : Z) : result ndarray2 :=
  if (n <? 0)%Z then Raise ValueError else Ok (eye (Z.to_nat n)).

(** The exercise as shipped: the assertion, the floor division, and the
    placeholder return value. *)
Definition reduced_density_matrix_A (rho : ndarray2) (dimA : Z) : result ndarray2 :=
  (_ <- py_assert (Nat.eqb (shape0 rho) (shape1 rho)) ;;
   dimB <- floordiv (Z.of_nat (shape0 rho)) dimA ;;
   np_eye dimA)%result.

(** *** What the notebook says the function returns *)

Definition Csum_n (n : nat) (f : nat -> C) : C := Csum (map f (seq 0 n)).

Definition matmul (A B : ndarray2) : ndarray2 :=
  mk2 (shape0 A) (shape1 B)
      (fun i j => Csum_n (shape1 A) (fun k => Cmul (item A i k) (item B k j))).

Definition kron (A B : ndarray2) : ndarray2 :=
  mk2 (shape0 A * shape0 B) (shape1 A * shape1 B)
      (fun i j => Cmul (item A (i / shape0 B)%nat (j / shape1 B)%nat)
                       (item B (i mod shape0 B)%nat (j mod shape1 B)%nat)).

Definition madd (A B : ndarray2) : ndarray2 :=
  mk2 (shape0 A) (shape1 A) (fun i j => Cadd (item A i j) (item B i j)).

Definition mzero (r c : nat) : ndarray2 := mk2 r c (fun _ _ => C0).

(** The standard basis vector |b> of a [dimB]-dimensional space, as a
    column, and its bra <b| as a row. *)
Definition ket (dimB b : nat) : ndarray2 :=
  mk2 dimB 1 (fun i _ => if Nat.eqb i b then C1 else C0).
Definition bra (dimB b : nat) : ndarray2 :=
  mk2 1 dimB (fun _ j => if Nat.eqb j b then Cconj C1 else C0).

(** Tr_B[rho] = sum over b of (I_A (x) <b|) rho (I_A (x) |b>). *)
Definition partial_trace_B (rho : ndarray2) (dimA dimB : nat) : ndarray2 :=
  fold_right madd (mzero dimA dimA)
    (map (fun b => matmul (matmul (kron (eye dimA) (bra dimB b)) rho)
                          (kron (eye dimA) (ket dimB b)))
         (seq 0 dimB)).

Definition mat_eq (A B : ndarray2) : Prop :=
  shape0 A = shape0 B /\ shape1 A = shape1 B /\
  forall i j, (i < shape0 A)%nat -> (j < shape1 A)%nat -> item A i j = item B i j.

Definition hermitian (A : ndarray2) : Prop :=
  shape0 A = shape1 A /\
  forall i j, (i < shape0 A)%nat -> (j < shape0 A)%nat ->
              item A i j = Cconj (item A j i).

Definition trace (A : ndarray2) : C := Csum_n (shape0 A) (fun i => item A i i).

(** <v| A |v> for a vector of amplitudes [v]. *)
Definition expectation (A : ndarray2) (v : nat -> C) : C :=
  Csum_n (shape0 A) (fun i =>
    Csum_n (shape1 A) (fun j => Cmul (Cconj (v i)) (Cmul (item A i j) (v j)))).

Definition positive_semidefinite (A : ndarray2) : Prop :=
  forall v : nat -> C, 0 <= Re (expectation A v) /\ Im (expectation A v) = 0.

(** A density matrix: Hermitian, positive semidefinite, of trace 1. *)
Definition density_matrix (A : ndarray2) : Prop :=
  hermitian A /\ positive_semidefinite A /\ trace A = C1.

(** *** The notebook's check of the exercise: the singlet state *)

Definition kron1 (a b : ndarray1) : ndarray1 :=
  flat_map (fun x => map (Cmul x) b) a.

Fixpoint vsub1 (a b : ndarray1) : ndarray1 :=
  match a, b with
  | x :: a', y :: b' => Csub x y :: vsub1 a' b'
  | _, _ => []
  end.

Definition outer (a b : ndarray1) : ndarray2 :=
  mk2 (length a) (length b) (fun i j => Cmul (nth i a C0) (nth j b C0)).

(** <a|b>: [np.dot(a.conj(), b)]. *)
Definition inner (a b : ndarray1) : C :=
  Csum (map (fun p => Cmul (Cconj (fst p)) (snd p)) (combine a b)).

Definition up : ndarray1 := [RtoC 1.0; RtoC 0.0].
Definition down : ndarray1 := [RtoC 0.0; RtoC 1.0].

(** [psi = 1/np.sqrt(2) * (np.kron(up, down) - np.kron(down, up))] *)
Definition psi : ndarray1 :=
  map (Cmul (RtoC (1 / sqrt 2))) (vsub1 (kron1 up down) (kron1 down up)).

(** [rho = np.outer(psi, psi.conj())] *)
Definition rho : ndarray2 := outer psi (map Cconj psi).

(** [rhoA = reduced_density_matrix_A(rho, 2)] *)
Definition rhoA : result ndarray2 := reduced_density_matrix_A rho 2.

(** A pure-state density matrix: |v><v| for a normalised v. *)
Definition pure_state_density (m : ndarray2) : Prop :=
  exists v : ndarray1, inner v v = C1 /\ mat_eq m (outer v (map Cconj v)).

(** *** The starter code of Task 3: a random Hermitian operator *)

(** [A.T] and [A.conj()] on a 2-d array, and a real number times an array. *)
Definition transpose2 (A : ndarray2) : ndarray2 :=
  mk2 (shape1 A) (shape0 A) (fun i j => item A j i).
Definition conj2 (A : ndarray2) : ndarray2 :=
  mk2 (shape0 A) (shape1 A) (fun i j => Cconj (item A i j)).
Definition mscale (c : R) (A : ndarray2) : ndarray2 :=
  mk2 (shape0 A) (shape1 A) (fun i j => Cmul (RtoC c) (item A i j)).

(** [A = np.random.randn(d,d) + 1j*np.random.randn(d,d)], for the two
    arrays of normal draws [U] and [W]. *)
Definition starter_A (d : nat) (U W : nat -> nat -> R) : ndarray2 :=
  mk2 d d (fun i j => Cadd (RtoC (U i j)) (Cmul Ci (RtoC (W i j)))).

(** [V = 1/2/np.sqrt(d) * (A + A.T.conj())] *)
Definition starter_V (d : nat) (U W : nat -> nat -> R) : ndarray2 :=
  let A := starter_A d U W in
  mscale (1 / 2 / sqrt (INR d)) (madd A (conj2 (transpose2 A))).

End Entanglement.

(** ** The entanglement notebook: the tensor-product example cells

    The cells run in one Python kernel: a global namespace that every cell
    reads and writes.  The arrays of these cells hold complex numbers with
    small integer parts, which float arithmetic computes exactly; they are
    modelled as pairs of integers, so that the cells evaluate. *)

Module Notebook.
Local Open Scope Z_scope.

Definition cnum : Type := (Z * Z)%type.

Definition cadd (x y : cnum) : cnum := (fst x + fst y, snd x + snd y).
Definition cmul (x y : cnum) : cnum :=
  (fst x * fst y - snd x * snd y, fst x * snd y + snd x * fst y).
Definition cconj (x : cnum) : cnum := (fst x, - snd x).
Definition csum (l : list cnum) : cnum := fold_right cadd (0, 0) l.

Inductive value : Type :=
  | Module_numpy
  | Scalar (c : cnum)
  | Arr1 (v : list cnum)
  | Arr2 (m : list (list cnum))
  | Shape (dims : list nat).

(** *** The numpy functions the cells call *)

Definition kron1 (a b : list cnum) : list cnum :=
  flat_map (fun x => map (cmul x) b) a.

Definition kron2 (A B : list (list cnum)) : list (list cnum) :=
  flat_map (fun ra => map (fun rb => kron1 ra rb) B) A.

Definition vdot (a b : list cnum) : cnum :=
  csum (map (fun p => cmul (fst p) (snd p)) (combine a b)).

Definition ncols (m : list (list cnum)) : nat := length (hd [] m).

Definition column (j : nat) (m : list (list cnum)) : list cnum :=
  map (fun row => nth j row (0, 0)) m.

Definition transpose (m : list (list cnum)) : list (list cnum) :=
  map (fun j => column j m) (seq 0 (ncols m)).

Fixpoint sequence {A : Type} (l : list (result A)) : result (list A) :=
  match l with
  | [] => Ok []
  | r :: l' => (x <- r ;; xs <- sequence l' ;; Ok (x :: xs))%result
  end.

(** [x.conj()] *)
Definition np_conj (x : value) : result value :=
  match x with
  | Scalar c => Ok (Scalar (cconj c))
  | Arr1 a => Ok (Arr1 (map cconj a))
  | Arr2 m => Ok (Arr2 (map (map cconj) m))
  | _ => Raise AttributeError
  end.

(** [x.T] *)
Definition np_T (x : value) : result value :=
  match x with
  | Scalar c => Ok (Scalar c)
  | Arr1 a => Ok (Arr1 a)
  | Arr2 m => Ok (Arr2 (transpose m))
  | _ => Raise AttributeError
  end.

(** [x.shape] *)
Definition np_shape (x : value) : result value :=
  match x with
  | Scalar _ => Ok (Shape [])
  | Arr1 a => Ok (Shape [length a])
  | Arr2 m => Ok (Shape [length m; ncols m])
  | _ => Raise AttributeError
  end.

(** [np.kron(x, y)]: a 1-d argument next to a 2-d one counts as one row. *)
Definition np_kron (x y : value) : result value :=
  match x, y with
  | Scalar c, Scalar d => Ok (Scalar (cmul c d))
  | Scalar c, Arr1 b => Ok (Arr1 (map (cmul c) b))
  | Arr1 a, Scalar d => Ok (Arr1 (map (fun z => cmul z d) a))
  | Scalar c, Arr2 B => Ok (Arr2 (map (map (cmul c)) B))
  | Arr2 A, Scalar d => Ok (Arr2 (map (map (fun z => cmul z d)) A))
  | Arr1 a, Arr1 b => Ok (Arr1 (kron1 a b))
  | Arr1 a, Arr2 B => Ok (Arr2 (kron2 [a] B))
  | Arr2 A, Arr1 b => Ok (Arr2 (kron2 A [b]))
  | Arr2 A, Arr2 B => Ok (Arr2 (kron2 A B))
  | _, _ => Raise TypeError
  end.

(** [np.dot(x, y)]: the inner dimensions must agree. *)
Definition np_dot (x y : value) : result value :=
  match x, y with
  | Scalar c, Scalar d => Ok (Scalar (cmul c d))
  | Scalar c, Arr1 b => Ok (Arr1 (map (cmul c) b))
  | Arr1 a, Scalar d => Ok (Arr1 (map (fun z => cmul z d) a))
  | Scalar c, Arr2 B => Ok (Arr2 (map (map (cmul c)) B))
  | Arr2 A, Scalar d => Ok (Arr2 (map (map (fun z => cmul z d)) A))
  | Arr1 a, Arr1 b =>
      if Nat.eqb (length a) (length b) then Ok (Scalar (vdot a b))
      else Raise ValueError
  | Arr2 A, Arr1 b =>
      if Nat.eqb (ncols A) (length b) then Ok (Arr1 (map (fun row => vdot row b) A))
      else Raise ValueError
  | Arr1 a, Arr2 B =>
      if Nat.eqb (length a) (length B) then Ok (Arr1 (map (vdot a) (transpose B)))
      else Raise ValueError
  | Arr2 A, Arr2 B =>
      if Nat.eqb (ncols A) (length B)
      then Ok (Arr2 (map (fun row => map (vdot row) (transpose B)) A))
      else Raise ValueError
  | _, _ => Raise TypeError
  end.

(** Elementwise product of two rows, broadcasting a row of length 1. *)
Definition broadcast1 (a b : list cnum) : result (list cnum) :=
  if Nat.eqb (length a) (length b)
  then Ok (map (fun p => cmul (fst p) (snd p)) (combine a b))
  else if Nat.eqb (length a) 1 then Ok (map (cmul (hd (0, 0) a)) b)
  else if Nat.eqb (length b) 1 then Ok (map (fun z => cmul z (hd (0, 0) b)) a)
  else Raise ValueError.

Definition broadcast2 (A B : list (list cnum)) : result (list (list cnum)) :=
  if Nat.eqb (length A) (length B)
  then sequence (map (fun p => broadcast1 (fst p) (snd p)) (combine A B))
  else if Nat.eqb (length A) 1 then sequence (map (broadcast1 (hd [] A)) B)
  else if Nat.eqb (length B) 1 then sequence (map (fun ra => broadcast1 ra (hd [] B)) A)
  else Raise ValueError.

(** [x * y] *)
Definition py_mul (x y : value) : result value :=
  match x, y with
  | Scalar c, Scalar d => Ok (Scalar (cmul c d))
  | Scalar c, Arr1 b => Ok (Arr1 (map (cmul c) b))
  | Arr1 a, Scalar d => Ok (Arr1 (map (fun z => cmul z d) a))
  | Scalar c, Arr2 B => Ok (Arr2 (map (map (cmul c)) B))
  | Arr2 A, Scalar d => Ok (Arr2 (map (map (fun z => cmul z d)) A))
  | Arr1 a, Arr1 b => result_map Arr1 (broadcast1 a b)
  | Arr1 a, Arr2 B => result_map Arr2 (broadcast2 [a] B)
  | Arr2 A, Arr1 b => result_map Arr2 (broadcast2 A [b])
  | Arr2 A, Arr2 B => result_map Arr2 (broadcast2 A B)
  | _, _ => Raise TypeError
  end.

(** *** The kernel: global names and the running cell's output area *)

Record kernel : Type := mkKernel {
  globals : gmap string value;
  stdout : list (string * value)
}.

Definition M (A : Type) : Type := kernel -> result A * kernel.

Definition ret {A : Type} (a : A) : M A := fun k => (Ok a, k).

Definition bind {A B : Type} (m : M A) (f : A -> M B) : M B :=
  fun k =>
    match m k with
    | (Ok a, k') => f a k'
    | (Raise e, k') => (Raise e, k')
    end.

Definition lift {A : Type} (r : result A) : M A := fun k => (r, k).

Declare Scope kernel_scope.
Delimit Scope kernel_scope with kernel.
Notation "x <- m ;; f" := (bind m (fun x => f))
  (at level 100, m at next level, right associativity) : kernel_scope.
Notation "m ;;; f" := (bind m (fun _ => f))
  (at level 100, right associativity) : kernel_scope.

(** Reading a global name. *)
Definition load (x : string) : M value :=
  fun k =>
    match globals k !! x with
    | Some v => (Ok v, k)
    | None => (Raise (NameError x), k)
    end.

(** [x = v] at the top level of a cell. *)
Definition store (x : string) (v : value) : M unit :=
  fun k => (Ok tt, mkKernel (<[x := v]> (globals k)) (stdout k)).

(** [print(label, v)] *)
Definition print (label : string) (v : value) : M unit :=
  fun k => (Ok tt, mkKernel (globals k) (stdout k ++ [(label, v)])).

(** Looking a function up in the module bound to [np]. *)
Definition np_attr : M unit :=
  fun k =>
    match globals k !! "np"%string with
    | Some Module_numpy => (Ok tt, k)
    | Some _ => (Raise AttributeError, k)
    | None => (Raise (NameError "np"), k)
    end.

(** [np.array(literal)] *)
Definition np_array (v : value) : M value := (np_attr ;;; ret v)%kernel.

(** [np.kron(x, y)] and [np.dot(x, y)] on two global names or values. *)
Definition call_kron (x y : M value) : M value :=
  (np_attr ;;; a <- x ;; b <- y ;; lift (np_kron a b))%kernel.
Definition call_dot (x y : M value) : M value :=
  (np_attr ;;; a <- x ;; b <- y ;; lift (np_dot a b))%kernel.
Definition conj_of (x : M value) : M value :=
  (a <- x ;; lift (np_conj a))%kernel.
Definition T_of (x : M value) : M value :=
  (a <- x ;; lift (np_T a))%kernel.
Definition shape_of (x : M value) : M value :=
  (a <- x ;; lift (np_shape a))%kernel.
Definition times (x y : M value) : M value :=
  (a <- x ;; b <- y ;; lift (py_mul a b))%kernel.
Definition assign (x : string) (e : M value) : M unit :=
  (v <- e ;; store x v)%kernel.
Definition print_expr (label : string) (e : M value) : M unit :=
  (v <- e ;; print label v)%kernel.

(** *** The code cells, in notebook order *)

Section cells.
Local Open Scope string_scope.
Local Open Scope kernel_scope.

(** In [1]: two real vectors and their tensor product. *)
Definition cell_vectors : M unit :=
  store "np" Module_numpy ;;;
  assign "a" (np_array (Arr1 [(2, 0); (-1, 0)])) ;;;
  assign "b" (np_array (Arr1 [(1, 0); (2, 0); (3, 0)])) ;;;
  assign "psi" (call_kron (load "a") (load "b")) ;;;
  print_expr "" (load "psi").

(** In [2]: the product in the other order. *)
Definition cell_swapped : M unit :=
  assign "foo" (call_kron (load "b") (load "a")) ;;;
  print_expr "" (load "foo").

(** In [7]: new complex vectors [a], [b] and operators [OA], [OB]. *)
Definition cell_operators : M unit :=
  assign "a" (np_array (Arr1 [(2, 1); (0, 1)])) ;;;
  assign "b" (np_array (Arr1 [(0, -1); (2, 0); (1, -1)])) ;;;
  assign "OA" (np_array (Arr2 [[(2, 0); (1, 0)]; [(0, 1); (1, 0)]])) ;;;
  assign "OB" (np_array (Arr2 [[(1, 0); (0, 2); (3, 0)];
                               [(0, 0); (4, 0); (0, 0)];
                               [(1, 0); (0, 0); (0, 1)]])) ;;;
  assign "O_total" (call_kron (load "OA") (load "OB")) ;;;
  assign "OAa" (call_dot (load "OA") (load "a")) ;;;
  assign "OBb" (call_dot (load "OB") (load "b")) ;;;
  print_expr "LHS: " (call_dot (load "O_total") (call_kron (load "a") (load "b"))) ;;;
  print_expr "RHS: " (call_kron (load "OAa") (load "OBb")).

(** In [11]: the basis vectors of Task 1. *)
Definition cell_basis : M unit :=
  assign "m" (np_array (Arr1 [(1, 0); (0, 0)])) ;;;
  assign "n" (np_array (Arr1 [(0, 0); (1, 0)])) ;;;
  assign "p" (np_array (Arr1 [(1, 0); (0, 0); (0, 0)])) ;;;
  assign "q" (np_array (Arr1 [(0, 0); (1, 0); (0, 0)])) ;;;
  assign "r" (np_array (Arr1 [(0, 0); (0, 0); (1, 0)])).

(** In [22]: left projections.  "Note: a, b, OA, and OB were defined in a
    previous code cell." *)
Definition cell_left_projection : M unit :=
  assign "alpha" (np_array (Arr1 [(2, 1); (1, -2)])) ;;;
  assign "projector" (call_kron (conj_of (load "alpha")) (load "OB")) ;;;
  print_expr "LHS1: "
    (call_dot (load "projector") (call_kron (load "a") (load "b"))) ;;;
  print_expr "RHS1: "
    (times (call_dot (conj_of (load "alpha")) (load "a"))
           (call_dot (load "OB") (load "b"))) ;;;
  print_expr "Shape of the <alpha| x O_B matrix is" (shape_of (load "projector")) ;;;
  assign "beta" (np_array (Arr1 [(2, 1); (1, -2); (-1, -1)])) ;;;
  assign "projector" (call_kron (load "OA") (conj_of (load "beta"))) ;;;
  print_expr "LHS2: "
    (call_dot (load "projector") (call_kron (load "a") (load "b"))) ;;;
  print_expr "RHS2: "
    (times (call_dot (conj_of (load "beta")) (load "b"))
           (call_dot (load "OA") (load "a"))) ;;;
  print_expr "Shape of the O_A x <beta| matrix is" (shape_of (load "projector")).

(** In [25]: right projections.  "Note: a, b, alpha, beta, and OB were
    defined previously." *)
Definition cell_right_projection : M unit :=
  assign "projector1" (T_of (call_kron (load "alpha") (T_of (load "OB")))) ;;;
  print_expr "LHS1: "
    (call_dot (conj_of (call_kron (load "a") (load "b"))) (load "projector1")) ;;;
  print_expr "RHS1: "
    (times (call_dot (conj_of (load "a")) (load "alpha"))
           (call_dot (conj_of (load "b")) (load "OB"))) ;;;
  assign "projector2" (T_of (call_kron (T_of (load "OA")) (load "beta"))) ;;;
  print_expr "LHS2: "
    (call_dot (conj_of (call_kron (load "a") (load "b"))) (load "projector2")) ;;;
  print_expr "RHS2: "
    (times (call_dot (conj_of (load "b")) (load "beta"))
           (call_dot (conj_of (load "a")) (load "OA"))).

End cells.

(** *** Running cells *)

(** What the notebook shows under a cell: the exception, if one was raised,
    and what was printed. *)
Definition outcome : Type := (result unit * list (string * value))%type.

Definition run_cell (c : M unit) (ns : gmap string value) : result unit * kernel :=
  c (mkKernel ns []).

Definition cell_outcome (c : M unit) (ns : gmap string value) : outcome :=
  let r := run_cell c ns in (fst r, stdout (snd r)).

Definition namespace_after (c : M unit) (ns : gmap string value) : gmap string value :=
  globals (snd (run_cell c ns)).

(** The namespace left by running the cells of [h], in order, in a fresh kernel. *)
Definition run_history (h : list (M unit)) : gmap string value :=
  fold_left (fun ns c => namespace_after c ns) h ∅.

Definition outcome_after (h : list (M unit)) (c : M unit) : outcome :=
  cell_outcome c (run_history h).

(** A cell whose result does not depend on what ran before it. *)
Definition independent (c : M unit) : Prop :=
  forall h1 h2 : list (M unit), outcome_after h1 c = outcome_after h2 c.

(** The global names a cell reads before it could have assigned them. *)
Definition reads_left_projection : list string :=
  ["np"; "a"; "b"; "OA"; "OB"]%string.
Definition reads_right_projection : list string :=
  ["np"; "a"; "b"; "alpha"; "beta"; "OA"; "OB"]%string.

(** Every modelled cell with the names it takes from earlier cells. *)
Definition cell_reads : list (M unit * list string) :=
  [(cell_vectors, []);
   (cell_swapped, ["np"; "a"; "b"]%string);
   (cell_operators, ["np"]%string);
   (cell_basis, ["np"]%string);
   (cell_left_projection, reads_left_projection);
   (cell_right_projection, reads_right_projection)].

Definition agree_on (xs : list string) (ns1 ns2 : gmap string value) : Prop :=
  forall x, In x xs -> ns1 !! x = ns2 !! x.

(** Two kernel states that show the same output and agree on the names [xs]. *)
Definition krel (xs : list string) (k1 k2 : kernel) : Prop :=
  stdout k1 = stdout k2 /\ agree_on xs (globals k1) (globals k2).

(** [m] reads no global name outside [xs]: from states that agree on [xs]
    it gives the same result and the same output, and when it succeeds the
    states it leaves agree on [ys]. *)
Definition respects {A : Type} (xs : list string) (m : M A) (ys : list string) : Prop :=
  forall k1 k2, krel xs k1 k2 ->
    fst (m k1) = fst (m k2) /\
    stdout (snd (m k1)) = stdout (snd (m k2)) /\
    (forall a, fst (m k1) = Ok a ->
               agree_on ys (globals (snd (m k1))) (globals (snd (m k2)))).

(** The code cells of the notebook, top to bottom. *)
Definition notebook : list (M unit) :=
  [cell_vectors; cell_swapped; cell_operators; cell_basis;
   cell_left_projection; cell_right_projection].

(** *** The identities the example cells check *)

(** [np.dot] of a 2-d array with a 1-d array, row by row. *)
Definition matvec (A : list (list cnum)) (v : list cnum) : list cnum :=
  map (fun row => vdot row v) A.

(** A list of rows that all have [n] entries. *)
Definition rectangular (n : nat) (A : list (list cnum)) : Prop :=
  Forall (fun row => length row = n) A.

(** The two sides printed by In [7]:
    [np.dot(np.kron(OA, OB), np.kron(a, b))] and
    [np.kron(np.dot(OA, a), np.dot(OB, b))]. *)
Definition tensor_lhs (OA OB a b : value) : result value :=
  (O_total <- np_kron OA OB ;; ab <- np_kron a b ;; np_dot O_total ab)%result.
Definition tensor_rhs (OA OB a b : value) : result value :=
  (OAa <- np_dot OA a ;; OBb <- np_dot OB b ;; np_kron OAa OBb)%result.

(** An expression that evaluates to [v] in kernel state [k], leaving it as
    it was. *)
Definition evals (e : M value) (k : kernel) (v : value) : Prop := e k = (Ok v, k).

(** The literals of the projection cells. *)
Definition alpha_lit : list cnum := [(2, 1); (1, -2)].
Definition beta_lit : list cnum := [(2, 1); (1, -2); (-1, -1)].

(** Every modelled cell with the names it assigns. *)
Definition cell_writes : list (M unit * list string) :=
  [(cell_vectors, ["np"; "a"; "b"; "psi"]%string);
   (cell_swapped, ["foo"]%string);
   (cell_operators, ["a"; "b"; "OA"; "OB"; "O_total"; "OAa"; "OBb"]%string);
   (cell_basis, ["m"; "n"; "p"; "q"; "r"]%string);
   (cell_left_projection, ["alpha"; "projector"; "beta"]%string);
   (cell_right_projection, ["projector1"; "projector2"]%string)].

(** [m] leaves every global name outside [ws] as it found it. *)
Definition modifies_only {A : Type} (ws : list string) (m : M A) : Prop :=
  forall k x, ~ In x ws -> globals (snd (m k)) !! x = globals k !! x.

End Notebook.

(** * Properties *)

(** ** Complex arithmetic *)

Module CplxFacts.
Local Open Scope R_scope.

Lemma C_eq (z w : C) : Re z = Re w -> Im z = Im w -> z = w.
Proof. destruct z, w; simpl; intros -> ->; reflexivity. Qed.

Lemma Cexp_imag (x : R) : Cexp (Cmul Ci (RtoC x)) = mkC (cos x) (sin x).
Proof.
  unfold Cexp, Cmul, Ci, RtoC; simpl.
  replace (0 * x - 1 * 0) with 0 by ring.
  replace (0 * 0 + 1 * x) with x by ring.
  rewrite exp_0. apply C_eq; simpl; ring.
Qed.

Lemma Cdiv_real (z : C) (r : R) :
  r <> 0 -> Cdiv z (RtoC r) = mkC (Re z / r) (Im z / r).
Proof.
  intros Hr. unfold Cdiv, Cinv, Cmul, Cnorm2, RtoC; simpl.
  apply C_eq; simpl; field; nra.
Qed.

Lemma Cconj_add (z w : C) : Cconj (Cadd z w) = Cadd (Cconj z) (Cconj w).
Proof. apply C_eq; simpl; ring. Qed.

Lemma Cconj_mul (z w : C) : Cconj (Cmul z w) = Cmul (Cconj z) (Cconj w).
Proof. apply C_eq; simpl; ring. Qed.

Lemma Cconj_real (x : R) : Cconj (RtoC x) = RtoC x.
Proof. apply C_eq; simpl; ring. Qed.


Lemma Cadd_assoc (x y z : C) : Cadd (Cadd x y) z = Cadd x (Cadd y z).
Proof. apply C_eq; simpl; ring. Qed.

Lemma Cadd_0_l (z : C) : Cadd C0 z = z.
Proof. apply C_eq; simpl; ring. Qed.

Lemma Cadd_0_r (z : C) : Cadd z C0 = z.
Proof. apply C_eq; simpl; ring. Qed.

Lemma Cconj_0 : Cconj C0 = C0.
Proof. apply Cconj_real. Qed.

Lemma Cconj_sum (l : list C) : Cconj (Csum l) = Csum (map Cconj l).
Proof.
  induction l as [|z l IH]; simpl.
  - apply Cconj_0.
  - rewrite Cconj_add, IH. reflexivity.
Qed.

Lemma Cmul_real (x : R) (z : C) : Cmul (RtoC x) z = mkC (x * Re z) (x * Im z).
Proof. apply C_eq; simpl; ring. Qed.

Lemma two_PI_neq_0 : 2 * PI <> 0.
Proof. pose proof PI_RGT_0. lra. Qed.

Lemma truediv_nonzero (a b : Z) : b <> 0%Z -> truediv a b = Ok (IZR a / IZR b).
Proof. intros Hb. unfold truediv. destruct (Z.eq_dec b 0%Z); [contradiction | reflexivity]. Qed.


End CplxFacts.
Import CplxFacts.

(** ** The Born notebook *)

Module BornFacts.
Import Born.
Local Open Scope R_scope.

Lemma dot_self_nonneg (a : Vec3) : 0 <= dot a a.
Proof. destruct a as [[x y] z]; simpl. nra. Qed.

Lemma norm_eq_dot (a b : Vec3) : norm a = norm b -> dot a a = dot b b.
Proof.
  unfold norm. intros H.
  apply sqrt_inj; auto using dot_self_nonneg.
Qed.

Lemma equal_norm_match (ki kf : Vec3) : norm ki = norm kf -> magnitudes_match ki kf.
Proof.
  intros H. unfold magnitudes_match. rewrite (norm_eq_dot _ _ H).
  replace (dot kf kf - dot kf kf) with 0 by ring.
  rewrite Rabs_R0. lra.
Qed.

Lemma sample_points_length (L : R) (n : nat) (g : tape) :
  length (sample_points L n g) = n.
Proof.
  unfold sample_points. rewrite length_map.
  revert g. induction n as [|n IH]; intros g; simpl; [reflexivity|].
  rewrite IH. reflexivity.
Qed.





(** The loop adds one term per sampling point and advances the generator. *)
Lemma fborn1_loop_sum (Vfun : Vec3 -> C) (ki kf : Vec3) (L : R) (n : nat) :
  forall (f1 : C) (g : tape),
    fborn1_loop Vfun ki kf L n f1 g =
    (Cadd f1 (Csum (map (fborn1_term Vfun ki kf) (sample_points L n g))),
     tape_drop n g).
Proof.
  induction n as [|n IH]; intros f1 g.
  - simpl. rewrite Cadd_0_r. reflexivity.
  - cbn [fborn1_loop random3]. rewrite IH.
    unfold sample_points. cbn [tape_take map Csum].
    rewrite Cadd_assoc. reflexivity.
Qed.

Lemma fborn1_term_integrand (Vfun : Vec3 -> C) (ki kf r : Vec3) :
  fborn1_term Vfun ki kf r = born1_integrand Vfun ki kf r.
Proof.
  unfold fborn1_term, born1_integrand.
  rewrite Cdiv_real by apply two_PI_neq_0.
  rewrite Cexp_imag, Cmul_real.
  pose proof PI_RGT_0.
  apply C_eq; simpl; field; lra.
Qed.

(** Exchanging the wavevectors conjugates each term, for a real potential. *)
Lemma fborn1_term_swap (Vfun : Vec3 -> C) (ki kf r : Vec3) :
  Im (Vfun r) = 0 ->
  fborn1_term Vfun kf ki r = Cconj (fborn1_term Vfun ki kf r).
Proof.
  intros HV. unfold fborn1_term.
  rewrite !Cdiv_real by apply two_PI_neq_0.
  rewrite !Cexp_imag.
  replace (dot (vsub kf ki) r) with (- dot (vsub ki kf) r)
    by (destruct ki as [[? ?] ?], kf as [[? ?] ?], r as [[? ?] ?]; simpl; ring).
  rewrite cos_neg, sin_neg.
  pose proof PI_RGT_0.
  apply C_eq; simpl; rewrite HV; field; lra.
Qed.

Lemma V1_cases (r : Vec3) :
  (dot r r < 1 -> V1 r = 0.1) /\ (~ dot r r < 1 -> V1 r = 0.0).
Proof.
  unfold V1. rewrite (Rabs_pos_eq _ (dot_self_nonneg r)).
  destruct (Rlt_dec (dot r r) 1.0) as [Hlt|Hge]; split; intros H; try reflexivity; lra.
Qed.




Lemma ki_kf_equal_norm : norm ki_z = norm kf_x.
Proof. unfold norm, dot, ki_z, kf_x. f_equal. lra. Qed.


Lemma fborn1_returns (Vfun : Vec3 -> C) (ki kf : Vec3) (L : R) (N : Z) (g : tape) :
  magnitudes_match ki kf -> N <> 0%Z ->
  exists v, fborn1 Vfun ki kf L N g = (Ok v, tape_drop (Z.to_nat N) g).
Proof.
  intros Hm HN. unfold fborn1. unfold magnitudes_match in Hm.
  destruct (Rlt_dec _ _) as [_|Hno]; [|contradiction].
  rewrite fborn1_loop_sum, truediv_nonzero by exact HN.
  eexists. reflexivity.
Qed.




(** C8: with the generator's draws held fixed, a real-valued potential and
    wavevectors of equal magnitude, exchanging [ki] and [kf] conjugates
    the result of [fborn1] (and consumes the same draws). *)
Theorem fborn1_swap_conj (Vfun : Vec3 -> C) (ki kf : Vec3) (L : R) (N : Z) (g : tape) :
  real_valued Vfun ->
  norm ki = norm kf ->
  fborn1 Vfun kf ki L N g = result_conj (fborn1 Vfun ki kf L N g).
Proof.
  intros HV Hk. unfold fborn1, result_conj.
  rewrite (norm_eq_dot _ _ Hk).
  destruct (Rlt_dec _ _) as [_|_]; [|reflexivity].
  rewrite !fborn1_loop_sum.
  destruct (truediv 1 N) as [q|e]; [|reflexivity].
  simpl. f_equal. f_equal.
  rewrite Cconj_mul, Cconj_real, Cconj_add, Cconj_0, Cconj_sum, map_map.
  do 3 f_equal.
  apply map_ext. intros r. apply fborn1_term_swap, HV.
Qed.

(** The plotting cell never trips the assertion and returns an amplitude. *)
Lemma fvec_entry_returns (E : R) (g : tape) :
  exists f, fvec_entry E g = (Ok f, tape_drop 5000 g).
Proof.
  unfold fvec_entry.
  apply (fborn1_returns _ _ _ _ default_N); [|discriminate].
  apply equal_norm_match. unfold norm, dot. f_equal. ring.
Qed.

Lemma V1_potential_real : real_valued V1_potential.
Proof. intros r. reflexivity. Qed.

Lemma fborn1_swap_conj_witness :
  fborn1 V1_potential kf_x ki_z 1 3 half_tape =
  result_conj (fborn1 V1_potential ki_z kf_x 1 3 half_tape).
Proof.
  exact (fborn1_swap_conj V1_potential ki_z kf_x 1 3 half_tape
           V1_potential_real ki_kf_equal_norm).
Defined.



(** *** More on [fborn1]: draws, linearity, size *)

Lemma tape_take_ext (n : nat) :
  forall g1 g2, agree_upto n g1 g2 -> tape_take n g1 = tape_take n g2.
Proof.
  induction n as [|n IH]; intros g1 g2 H; simpl; [reflexivity|].
  rewrite (H 0%nat) by lia. f_equal.
  apply IH. intros i Hi. apply H. lia.
Qed.

Lemma fborn1_tape_after (Vfun : Vec3 -> C) (ki kf : Vec3) (L : R) (N : Z) (g : tape) :
  snd (fborn1 Vfun ki kf L N g) =
  if Rlt_dec (Rabs (dot ki ki - dot kf kf)) 1e-5 then tape_drop (Z.to_nat N) g else g.
Proof.
  unfold fborn1. destruct (Rlt_dec _ _); [|reflexivity].
  rewrite fborn1_loop_sum. reflexivity.
Qed.

(** X1: [fborn1] consumes exactly the next N draws when the assertion
    passes (none when it fails), and its result is decided by those draws:
    two generator states with the same next N draws give the same result. *)
Theorem fborn1_reads_N_draws
    (Vfun : Vec3 -> C) (ki kf : Vec3) (L : R) (N : Z) (g1 g2 : tape) :
  agree_upto (Z.to_nat N) g1 g2 ->
  fst (fborn1 Vfun ki kf L N g1) = fst (fborn1 Vfun ki kf L N g2) /\
  (magnitudes_match ki kf ->
   snd (fborn1 Vfun ki kf L N g1) = tape_drop (Z.to_nat N) g1) /\
  (~ magnitudes_match ki kf -> snd (fborn1 Vfun ki kf L N g1) = g1).
Proof.
  intros Hag. split; [|split].
  - unfold fborn1. destruct (Rlt_dec _ _); [|reflexivity].
    rewrite !fborn1_loop_sum. unfold sample_points.
    rewrite (tape_take_ext _ g1 g2 Hag). reflexivity.
  - intros Hm. rewrite fborn1_tape_after. unfold magnitudes_match in Hm.
    destruct (Rlt_dec _ _); [reflexivity | contradiction].
  - intros Hm. rewrite fborn1_tape_after. unfold magnitudes_match in Hm.
    destruct (Rlt_dec _ _); [contradiction | reflexivity].
Qed.

Lemma half_then_origin_agrees : agree_upto 3 half_tape half_then_origin.
Proof.
  intros i Hi. unfold half_then_origin, half_tape.
  destruct (Nat.ltb_spec i 3); [reflexivity | lia].
Qed.

Lemma fborn1_reads_N_draws_witness :
  fst (fborn1 V1_potential ki_z kf_x 1 3 half_tape) =
  fst (fborn1 V1_potential ki_z kf_x 1 3 half_then_origin).
Proof.
  exact (proj1 (fborn1_reads_N_draws V1_potential ki_z kf_x 1 3
                  half_tape half_then_origin half_then_origin_agrees)).
Defined.

Lemma born1_integrand_add (V W : Vec3 -> C) (ki kf r : Vec3) :
  born1_integrand (Vadd V W) ki kf r =
  Cadd (born1_integrand V ki kf r) (born1_integrand W ki kf r).
Proof. unfold born1_integrand, Vadd. apply C_eq; simpl; ring. Qed.

Lemma born1_integrand_scale (c : C) (V : Vec3 -> C) (ki kf r : Vec3) :
  born1_integrand (Vscale c V) ki kf r = Cmul c (born1_integrand V ki kf r).
Proof. unfold born1_integrand, Vscale. apply C_eq; simpl; ring. Qed.

Lemma Csum_map_add {A : Type} (f h : A -> C) (l : list A) :
  Csum (map (fun x => Cadd (f x) (h x)) l) = Cadd (Csum (map f l)) (Csum (map h l)).
Proof.
  induction l as [|x l IH]; simpl.
  - apply C_eq; simpl; ring.
  - rewrite IH. apply C_eq; simpl; ring.
Qed.

Lemma Csum_map_scale {A : Type} (c : C) (f : A -> C) (l : list A) :
  Csum (map (fun x => Cmul c (f x)) l) = Cmul c (Csum (map f l)).
Proof.
  induction l as [|x l IH]; simpl.
  - apply C_eq; simpl; ring.
  - rewrite IH. apply C_eq; simpl; ring.
Qed.

(** X2: with the draws held fixed, [fborn1] is linear in the potential:
    the amplitude of a sum of potentials is the sum of the amplitudes, and
    a constant factor of the potential comes out of the amplitude; the same
    exceptions are raised and the same draws are consumed. *)
Theorem fborn1_linear
    (V W : Vec3 -> C) (c : C) (ki kf : Vec3) (L : R) (N : Z) (g : tape) :
  fborn1 (Vadd V W) ki kf L N g =
    (result_lift2 Cadd (fst (fborn1 V ki kf L N g)) (fst (fborn1 W ki kf L N g)),
     snd (fborn1 V ki kf L N g)) /\
  fborn1 (Vscale c V) ki kf L N g =
    (result_map (Cmul c) (fst (fborn1 V ki kf L N g)), snd (fborn1 V ki kf L N g)).
Proof.
  unfold fborn1.
  destruct (Rlt_dec _ _); [|split; reflexivity].
  rewrite !fborn1_loop_sum, !Cadd_0_l.
  rewrite !(map_ext _ _ (fborn1_term_integrand _ ki kf)).
  rewrite (map_ext _ _ (born1_integrand_add V W ki kf)), Csum_map_add.
  rewrite (map_ext _ _ (born1_integrand_scale c V ki kf)), Csum_map_scale.
  destruct (truediv 1 N) as [q|e]; [|split; reflexivity].
  cbn [fst snd result_map result_lift2].
  split; f_equal; f_equal; apply C_eq; simpl; ring.
Qed.

(** X4: a negative sample count is not refused: the loop does not run, no
    draw is consumed and the amplitude returned is zero. *)
Theorem fborn1_negative_N
    (Vfun : Vec3 -> C) (ki kf : Vec3) (L : R) (N : Z) (g : tape) :
  magnitudes_match ki kf -> (N < 0)%Z ->
  fborn1 Vfun ki kf L N g = (Ok C0, g).
Proof.
  intros Hm HN. unfold fborn1. unfold magnitudes_match in Hm.
  destruct (Rlt_dec _ _); [|contradiction].
  rewrite fborn1_loop_sum, truediv_nonzero by lia.
  replace (Z.to_nat N) with 0%nat by lia.
  cbn [result_map sample_points tape_take map Csum].
  f_equal. f_equal. apply C_eq; simpl; ring.
Qed.

Lemma fborn1_negative_N_witness :
  fborn1 V1_potential ki_z kf_x 1 (-5) half_tape = (Ok C0, half_tape).
Proof.
  apply fborn1_negative_N.
  - apply equal_norm_match, ki_kf_equal_norm.
  - lia.
Defined.

Lemma Cnorm2_nonneg (z : C) : 0 <= Cnorm2 z.
Proof. unfold Cnorm2. nra. Qed.

Lemma Cnorm2_scale (c : R) (z : C) : Cnorm2 (Cmul (RtoC c) z) = c * c * Cnorm2 z.
Proof. unfold Cnorm2. simpl. ring. Qed.

Lemma Cnorm2_add_bound (z s : C) (B n : R) :
  0 <= B -> 0 <= n ->
  Cnorm2 z <= B * B ->
  Cnorm2 s <= (n * B) * (n * B) ->
  Cnorm2 (Cadd z s) <= ((n + 1) * B) * ((n + 1) * B).
Proof.
  destruct z as [x1 y1], s as [x2 y2]. unfold Cnorm2, Cadd. simpl.
  intros HB Hn Hz Hs.
  assert (Hc : x1 * x2 + y1 * y2 <= n * (B * B)).
  { destruct (Req_dec n 0) as [->|Hn0].
    - assert (x2 = 0 /\ y2 = 0) as [-> ->] by (split; nra). lra.
    - assert (Hpos : 0 < n) by lra.
      apply (Rmult_le_reg_l (2 * n)); [lra|].
      pose proof (Rle_0_sqr (n * x1 - x2)) as H1.
      pose proof (Rle_0_sqr (n * y1 - y2)) as H2.
      unfold Rsqr in H1, H2.
      assert (n * n * (x1 * x1 + y1 * y1) <= n * n * (B * B)).
      { apply Rmult_le_compat_l; [nra | exact Hz]. }
      nra. }
  nra.
Qed.

Lemma Csum_norm2_bound (B : R) (l : list C) :
  0 <= B ->
  Forall (fun z => Cnorm2 z <= B * B) l ->
  Cnorm2 (Csum l) <= (INR (length l) * B) * (INR (length l) * B).
Proof.
  intros HB H. induction H as [|z l Hz Hl IH].
  - simpl. unfold Cnorm2. simpl. lra.
  - cbn [Csum length]. rewrite S_INR.
    apply Cnorm2_add_bound; auto using pos_INR.
Qed.

Lemma born1_integrand_norm2 (V : Vec3 -> C) (ki kf r : Vec3) :
  Cnorm2 (born1_integrand V ki kf r) = Cnorm2 (V r) / ((2 * PI) * (2 * PI)).
Proof.
  unfold born1_integrand. rewrite Cexp_imag.
  set (x := dot (vsub ki kf) r).
  pose proof (sin2_cos2 x) as Hsc. unfold Rsqr in Hsc.
  pose proof PI_RGT_0 as Hpi.
  unfold Cnorm2. simpl.
  replace (Re (V r) * Re (V r) + Im (V r) * Im (V r))
    with ((Re (V r) * Re (V r) + Im (V r) * Im (V r)) *
          (sin x * sin x + cos x * cos x)) by (rewrite Hsc; ring).
  field. lra.
Qed.

(** X3: for a potential of modulus at most M everywhere, whatever the
    draws and the sample count, an amplitude returned by [fborn1] has
    modulus at most (2L)^3 M / (2 pi). *)
Theorem fborn1_bounded
    (Vfun : Vec3 -> C) (M : R) (ki kf : Vec3) (L : R) (N : Z) (g g' : tape) (f : C) :
  0 <= M ->
  bounded_by M Vfun ->
  fborn1 Vfun ki kf L N g = (Ok f, g') ->
  Cnorm2 f <= (cube_volume L * M / (2 * PI)) * (cube_volume L * M / (2 * PI)).
Proof.
  intros HM HV Hf. unfold fborn1 in Hf.
  destruct (Rlt_dec _ _); [|discriminate Hf].
  rewrite fborn1_loop_sum, Cadd_0_l in Hf.
  rewrite (map_ext _ _ (fborn1_term_integrand Vfun ki kf)) in Hf.
  unfold truediv in Hf. destruct (Z.eq_dec N 0%Z) as [|HN]; [discriminate Hf|].
  unfold result_map in Hf. injection Hf as <- _.
  pose proof PI_RGT_0 as Hpi.
  set (B := M / (2 * PI)).
  assert (HB : 0 <= B).
  { unfold B. apply Rmult_le_pos; [exact HM|]. left. apply Rinv_0_lt_compat. lra. }
  set (l := map (born1_integrand Vfun ki kf) (sample_points L (Z.to_nat N) g)).
  assert (Hl : Cnorm2 (Csum l) <= (INR (length l) * B) * (INR (length l) * B)).
  { apply Csum_norm2_bound; [exact HB|].
    unfold l. apply List.Forall_forall. intros z Hz.
    apply in_map_iff in Hz. destruct Hz as (pt & <- & _).
    rewrite born1_integrand_norm2. unfold B.
    replace (M / (2 * PI) * (M / (2 * PI))) with (M * M / (2 * PI * (2 * PI)))
      by (field; lra).
    apply Rmult_le_compat_r; [|apply HV].
    left. apply Rinv_0_lt_compat. nra. }
  unfold l in Hl. rewrite length_map, sample_points_length in Hl. fold l in Hl.
  rewrite Cnorm2_scale.
  replace (2 * L * (2 * L * (2 * L * 1))) with (cube_volume L)
    by (unfold cube_volume; simpl; ring).
  pose proof (Cnorm2_nonneg (Csum l)) as Hnn.
  generalize dependent (Cnorm2 (Csum l)). intros S2 Hl Hnn.
  generalize (cube_volume L). intros v.
  replace (v * M / (2 * PI)) with (v * B) by (unfold B; field; lra).
  assert (Hq : 1 / IZR N * (1 / IZR N) * S2 <= B * B).
  { destruct (Z.lt_ge_cases N 0) as [Hneg|Hpos].
    - replace (Z.to_nat N) with 0%nat in Hl by lia. simpl in Hl.
      assert (S2 = 0) by nra.
      subst S2. nra.
    - assert (HNpos : 0 < IZR N) by (apply IZR_lt; lia).
      rewrite INR_IZR_INZ, Z2Nat.id in Hl by lia.
      replace (1 / IZR N * (1 / IZR N) * S2) with (S2 / (IZR N * IZR N))
        by (field; lra).
      apply (Rmult_le_reg_r (IZR N * IZR N)); [nra|].
      unfold Rdiv. rewrite Rmult_assoc, Rinv_l by nra. nra. }
  pose proof (Rmult_le_compat_l (v * v) _ _ (Rle_0_sqr v) Hq) as Hv.
  replace (1 / IZR N * v * (1 / IZR N * v) * S2)
    with (v * v * (1 / IZR N * (1 / IZR N) * S2)) by ring.
  replace (v * B * (v * B)) with (v * v * (B * B)) by ring.
  exact Hv.
Qed.

Lemma V1_potential_bounded : bounded_by 0.1 V1_potential.
Proof.
  intros r. unfold V1_potential, Cnorm2. simpl.
  destruct (V1_cases r) as [Hin Hout].
  destruct (Rlt_dec (dot r r) 1) as [H|H]; [rewrite (Hin H) | rewrite (Hout H)]; lra.
Qed.

Lemma fborn1_bounded_witness :
  exists f, fborn1 V1_potential ki_z kf_x 1 3 half_tape = (Ok f, tape_drop 3 half_tape) /\
            Cnorm2 f <= (cube_volume 1 * 0.1 / (2 * PI)) * (cube_volume 1 * 0.1 / (2 * PI)).
Proof.
  destruct (fborn1_returns V1_potential ki_z kf_x 1 3 half_tape) as [f Hf].
  - apply equal_norm_match, ki_kf_equal_norm.
  - discriminate.
  - exists f. split; [exact Hf|].
    apply (fborn1_bounded V1_potential 0.1 ki_z kf_x 1 3 half_tape (tape_drop 3 half_tape) f).
    + lra.
    + exact V1_potential_bounded.
    + exact Hf.
Defined.

End BornFacts.

(** ** The plotting cell of the Born notebook *)

Module PlotCellFacts.
Import Born BornFacts PlotCell.
Local Open Scope R_scope.

Lemma tape_drop_drop (n m : nat) (g : tape) :
  tape_drop m (tape_drop n g) = tape_drop (n + m) g.
Proof.
  unfold tape_drop. apply functional_extensionality. intros i.
  f_equal. lia.
Qed.

Lemma linspace_length (start stop : R) (num : nat) :
  length (linspace start stop num) = num.
Proof. unfold linspace. rewrite length_map, length_seq. reflexivity. Qed.

(** The wavevectors of the cell have the same length at every energy. *)
Lemma plot_vectors_match (k : R) : magnitudes_match (0, 0, k) (k, 0, 0).
Proof. apply equal_norm_match. unfold norm, dot. f_equal. ring. Qed.

Lemma plot_step_runs (Es : list R) (L0 : R) (n : nat) (fvec : list C) (g : tape) (E : R) :
  Es !! n = Some E -> (n < length fvec)%nat ->
  exists f,
    fst (fborn1 V1_potential (0, 0, sqrt (2 * E)) (sqrt (2 * E), 0, 0) L0 default_N g) = Ok f /\
    plot_step Es L0 n fvec g = (inr (<[n := f]> fvec), tape_drop 5000 g).
Proof.
  intros HE Hn. unfold plot_step. rewrite HE.
  destruct (fborn1_returns V1_potential (0, 0, sqrt (2 * E)) (sqrt (2 * E), 0, 0)
              L0 default_N g (plot_vectors_match _)) as [f Hf]; [discriminate|].
  exists f. rewrite Hf. split; [reflexivity|].
  apply Nat.ltb_lt in Hn. rewrite Hn. reflexivity.
Qed.

Lemma plot_loop_runs (Es : list R) (L0 : R) (m : nat) :
  forall (a : nat) (fvec : list C) (g : tape),
    length fvec = length Es ->
    (a + m <= length Es)%nat ->
    exists fvec',
      plot_loop Es L0 (seq a m) fvec g = (inr fvec', tape_drop (m * 5000) g) /\
      length fvec' = length fvec /\
      (forall n, (a <= n < a + m)%nat ->
         exists E f,
           Es !! n = Some E /\ fvec' !! n = Some f /\
           fst (fborn1 V1_potential (0, 0, sqrt (2 * E)) (sqrt (2 * E), 0, 0)
                       L0 default_N (tape_drop ((n - a) * 5000) g)) = Ok f) /\
      (forall n, (n < a \/ a + m <= n)%nat -> fvec' !! n = fvec !! n).
Proof.
  induction m as [|m IH]; intros a fvec g Hlen Ham.
  - exists fvec. cbn [seq plot_loop].
    split; [reflexivity|]. split; [reflexivity|].
    split; [intros n Hn; lia | reflexivity].
  - destruct (lookup_lt_is_Some_2 Es a) as [E HE]; [lia|].
    destruct (plot_step_runs Es L0 a fvec g E HE) as (f & Hf & Hstep); [lia|].
    destruct (IH (S a) (<[a := f]> fvec) (tape_drop 5000 g)) as (fvec' & Hrun & Hl' & Hset & Hkeep).
    { rewrite length_insert. exact Hlen. }
    { lia. }
    exists fvec'. cbn [seq plot_loop]. rewrite Hstep, Hrun, tape_drop_drop.
    split; [f_equal; f_equal; lia|].
    split; [rewrite Hl', length_insert; reflexivity|].
    split.
    + intros n Hn. destruct (Nat.eq_dec n a) as [->|Hne].
      * exists E, f. split; [exact HE|]. split.
        -- rewrite Hkeep by lia. apply list_lookup_insert_eq. lia.
        -- rewrite Nat.sub_diag. exact Hf.
      * destruct (Hset n) as (E' & f' & HE' & Hf' & Hamp); [lia|].
        exists E', f'. split; [exact HE'|]. split; [exact Hf'|].
        rewrite tape_drop_drop in Hamp.
        replace ((n - a) * 5000)%nat with (5000 + (n - S a) * 5000)%nat by lia.
        exact Hamp.
    + intros n Hn. rewrite Hkeep by lia.
      apply list_lookup_insert_ne. lia.
Qed.

(** X6: whatever the state of the generator, the plotting cell runs to
    the end: no assertion fails and no index is out of range.  It leaves 20
    amplitudes, the n-th being the result of [fborn1] for the n-th energy
    on draws 5000 n to 5000 n + 4999, and has consumed 100000 draws. *)
Theorem plot_cell_completes (g : tape) :
  exists fvec,
    plot_cell g = (inr fvec, tape_drop (20 * 5000) g) /\
    length fvec = 20%nat /\
    forall n, (n < 20)%nat ->
      exists E f,
        Evec !! n = Some E /\ fvec !! n = Some f /\
        amplitude_at E (tape_drop (n * 5000) g) = Ok f.
Proof.
  destruct (plot_loop_runs Evec L nd 0 (repeat C0 (length Evec)) g)
    as (fvec & Hrun & Hlen & Hset & _).
  - reflexivity.
  - unfold Evec. rewrite linspace_length. reflexivity.
  - exists fvec. split; [exact Hrun|].
    split; [rewrite Hlen, repeat_length; unfold Evec; apply linspace_length|].
    intros n Hn. destruct (Hset n) as (E & f & HE & Hf & Hamp); [unfold nd; lia|].
    exists E, f. rewrite Nat.sub_0_r in Hamp. auto.
Qed.

End PlotCellFacts.

(** ** The entanglement notebook: reduced density matrices *)

Module EntanglementFacts.
Import Entanglement.
Local Open Scope R_scope.

Lemma Cmul_0_l (z : C) : Cmul C0 z = C0.
Proof. apply C_eq; simpl; ring. Qed.

Lemma Cmul_0_r (z : C) : Cmul z C0 = C0.
Proof. apply C_eq; simpl; ring. Qed.

Lemma Cmul_1_l (z : C) : Cmul C1 z = z.
Proof. apply C_eq; simpl; ring. Qed.

Lemma Cmul_1_r (z : C) : Cmul z C1 = z.
Proof. apply C_eq; simpl; ring. Qed.

Lemma Csum_app (l1 l2 : list C) : Csum (l1 ++ l2) = Cadd (Csum l1) (Csum l2).
Proof.
  induction l1 as [|z l1 IH]; simpl.
  - rewrite Cadd_0_l. reflexivity.
  - rewrite IH, Cadd_assoc. reflexivity.
Qed.

Lemma Csum_n_S (n : nat) (f : nat -> C) :
  Csum_n (S n) f = Cadd (Csum_n n f) (f n).
Proof.
  unfold Csum_n. rewrite seq_S, map_app, Csum_app. simpl.
  rewrite Cadd_0_r. reflexivity.
Qed.

Lemma Csum_n_ext (n : nat) (f h : nat -> C) :
  (forall k, (k < n)%nat -> f k = h k) -> Csum_n n f = Csum_n n h.
Proof.
  intros H. unfold Csum_n. f_equal. apply map_ext_in.
  intros k Hk. apply in_seq in Hk. apply H. lia.
Qed.

Lemma Csum_n_zero (n : nat) (f : nat -> C) :
  (forall k, (k < n)%nat -> f k = C0) -> Csum_n n f = C0.
Proof.
  induction n as [|n IH]; intros H; [reflexivity|].
  rewrite Csum_n_S, IH by (intros; apply H; lia).
  rewrite H by lia. apply Cadd_0_l.
Qed.

(** A sum with a single non-zero term. *)
Lemma Csum_n_single (n k0 : nat) (f : nat -> C) :
  (k0 < n)%nat ->
  (forall k, (k < n)%nat -> k <> k0 -> f k = C0) ->
  Csum_n n f = f k0.
Proof.
  induction n as [|n IH]; intros Hk H; [lia|].
  rewrite Csum_n_S.
  destruct (Nat.eq_dec k0 n) as [->|Hne].
  - rewrite Csum_n_zero by (intros; apply H; lia). apply Cadd_0_l.
  - rewrite IH by (try lia; intros; apply H; lia).
    rewrite (H n) by lia. apply Cadd_0_r.
Qed.

Lemma fold_madd_item (F : nat -> ndarray2) (r c : nat) (l : list nat) (i j : nat) :
  item (fold_right madd (mzero r c) (map F l)) i j =
  Csum (map (fun b => item (F b) i j) l).
Proof.
  induction l as [|b l IH]; simpl; [reflexivity|].
  rewrite IH. reflexivity.
Qed.

Lemma index_split (dimB b k i : nat) :
  (b < dimB)%nat ->
  ((k / dimB)%nat = i /\ (k mod dimB)%nat = b <-> k = (i * dimB + b)%nat).
Proof.
  intros Hb. split.
  - intros [<- <-]. rewrite Nat.mul_comm. apply Nat.div_mod_eq.
  - intros ->. split.
    + rewrite Nat.div_add_l by lia. rewrite Nat.div_small by lia. lia.
    + rewrite Nat.add_comm, Nat.Div0.mod_add. apply Nat.mod_small. lia.
Qed.

(** I_A (x) <b| picks the B-index b of every A-row. *)
Lemma bra_projector_item (dimA dimB b i k : nat) :
  (b < dimB)%nat ->
  item (kron (eye dimA) (bra dimB b)) i k =
  if Nat.eqb k (i * dimB + b) then C1 else C0.
Proof.
  intros Hb. cbn [kron eye bra item shape0 shape1].
  rewrite Nat.div_1_r.
  pose proof (index_split dimB b k i Hb) as Hs.
  destruct (Nat.eqb_spec k (i * dimB + b)) as [Hk|Hk].
  - apply Hs in Hk. destruct Hk as [H1 H2].
    rewrite H1, H2, !Nat.eqb_refl. apply C_eq; simpl; ring.
  - destruct (Nat.eqb_spec i (k / dimB)) as [H1|H1];
      destruct (Nat.eqb_spec (k mod dimB) b) as [H2|H2];
      try (apply C_eq; simpl; ring).
    exfalso. apply Hk, Hs. split; [symmetry|]; assumption.
Qed.

Lemma ket_projector_item (dimA dimB b l j : nat) :
  (b < dimB)%nat ->
  item (kron (eye dimA) (ket dimB b)) l j =
  if Nat.eqb l (j * dimB + b) then C1 else C0.
Proof.
  intros Hb. cbn [kron eye ket item shape0 shape1].
  rewrite Nat.div_1_r.
  pose proof (index_split dimB b l j Hb) as Hs.
  destruct (Nat.eqb_spec l (j * dimB + b)) as [Hl|Hl].
  - apply Hs in Hl. destruct Hl as [H1 H2].
    rewrite H1, H2, !Nat.eqb_refl. apply C_eq; simpl; ring.
  - destruct (Nat.eqb_spec (l / dimB) j) as [H1|H1];
      destruct (Nat.eqb_spec (l mod dimB) b) as [H2|H2];
      try (apply C_eq; simpl; ring).
    exfalso. apply Hl, Hs. split; assumption.
Qed.

(** The partial trace, entry by entry: rho_A[i, j] is the sum over b of
    rho[i * dimB + b, j * dimB + b]. *)
Lemma partial_trace_item (m : ndarray2) (dimA dimB i j : nat) :
  shape1 m = (dimA * dimB)%nat ->
  (i < dimA)%nat -> (j < dimA)%nat ->
  item (partial_trace_B m dimA dimB) i j =
  Csum_n dimB (fun b => item m (i * dimB + b) (j * dimB + b)).
Proof.
  intros Hshape Hi Hj. unfold partial_trace_B.
  rewrite fold_madd_item. fold (Csum_n dimB
    (fun b => item (matmul (matmul (kron (eye dimA) (bra dimB b)) m)
                           (kron (eye dimA) (ket dimB b))) i j)).
  apply Csum_n_ext. intros b Hb.
  cbn [matmul item shape0 shape1]. cbn [kron eye bra shape0 shape1].
  rewrite Hshape.
  assert (Hi0 : (i * dimB + b < dimA * dimB)%nat) by nia.
  assert (Hj0 : (j * dimB + b < dimA * dimB)%nat) by nia.
  rewrite (Csum_n_single _ (j * dimB + b)); [|exact Hj0|].
  - rewrite ket_projector_item, Nat.eqb_refl, Cmul_1_r by exact Hb.
    rewrite (Csum_n_single _ (i * dimB + b)); [|exact Hi0|].
    + rewrite bra_projector_item, Nat.eqb_refl, Cmul_1_l by exact Hb. reflexivity.
    + intros k _ Hk. rewrite bra_projector_item by exact Hb.
      apply Nat.eqb_neq in Hk. rewrite Hk. apply Cmul_0_l.
  - intros l _ Hl. rewrite ket_projector_item by exact Hb.
    apply Nat.eqb_neq in Hl. rewrite Hl. apply Cmul_0_r.
Qed.

Lemma Csum_n_add (n m : nat) (f : nat -> C) :
  Csum_n (n + m) f = Cadd (Csum_n n f) (Csum_n m (fun k => f (n + k)%nat)).
Proof.
  induction m as [|m IH].
  - rewrite Nat.add_0_r. cbn. rewrite Cadd_0_r. reflexivity.
  - rewrite Nat.add_succ_r, !Csum_n_S, IH, Cadd_assoc. reflexivity.
Qed.

(** A sum over a product range, block by block. *)
Lemma Csum_n_mul (a b : nat) (f : nat -> C) :
  Csum_n (a * b) f = Csum_n a (fun i => Csum_n b (fun j => f (i * b + j)%nat)).
Proof.
  induction a as [|a IH]; [reflexivity|].
  rewrite Csum_n_S, <- IH.
  replace (S a * b)%nat with (a * b + b)%nat by lia.
  apply Csum_n_add.
Qed.

Lemma Cconj_sum_n (n : nat) (f : nat -> C) :
  Cconj (Csum_n n f) = Csum_n n (fun k => Cconj (f k)).
Proof. unfold Csum_n. rewrite Cconj_sum, map_map. reflexivity. Qed.

Lemma partial_trace_shape (m : ndarray2) (dimA dimB : nat) :
  shape0 (partial_trace_B m dimA dimB) = dimA /\
  shape1 (partial_trace_B m dimA dimB) = dimA.
Proof.
  unfold partial_trace_B. destruct dimB as [|dimB]; [split; reflexivity|].
  cbn [seq map fold_right madd shape0 shape1 matmul kron eye bra ket].
  split; apply Nat.mul_1_r.
Qed.

(** The partial trace keeps the trace ... *)
Lemma partial_trace_trace (m : ndarray2) (dimA dimB : nat) :
  shape0 m = (dimA * dimB)%nat -> shape1 m = (dimA * dimB)%nat ->
  trace (partial_trace_B m dimA dimB) = trace m.
Proof.
  intros H0 H1. unfold trace.
  rewrite (proj1 (partial_trace_shape m dimA dimB)), H0, Csum_n_mul.
  apply Csum_n_ext. intros i Hi.
  apply partial_trace_item; assumption.
Qed.

(** ... and Hermitian symmetry: what a finished exercise would return for
    a density matrix has the properties the notebook asks to check. *)
Lemma partial_trace_hermitian (m : ndarray2) (dimA dimB : nat) :
  shape0 m = (dimA * dimB)%nat ->
  hermitian m ->
  hermitian (partial_trace_B m dimA dimB).
Proof.
  intros H0 [Hsq Hh].
  destruct (partial_trace_shape m dimA dimB) as [Hs0 Hs1].
  split; [congruence|]. rewrite Hs0. intros i j Hi Hj.
  rewrite !partial_trace_item by (try assumption; congruence).
  rewrite Cconj_sum_n. apply Csum_n_ext. intros b Hb.
  apply Hh; rewrite H0; nia.
Qed.

(** *** The function as shipped *)

Lemma reduced_density_matrix_A_square (m : ndarray2) (dimA : Z) :
  shape0 m = shape1 m -> (1 <= dimA)%Z ->
  reduced_density_matrix_A m dimA = Ok (eye (Z.to_nat dimA)).
Proof.
  intros Hsq Hd. unfold reduced_density_matrix_A, py_assert, floordiv, np_eye.
  rewrite Hsq, Nat.eqb_refl. simpl.
  destruct (Z.eq_dec dimA 0%Z) as [->|_]; [lia|]. simpl.
  destruct (Z.ltb_spec dimA 0%Z); [lia|]. reflexivity.
Qed.



Lemma eye_hermitian (n : nat) : hermitian (eye n).
Proof.
  split; [reflexivity|]. intros i j _ _. simpl.
  rewrite (Nat.eqb_sym j i).
  destruct (Nat.eqb i j); apply C_eq; simpl; ring.
Qed.

Lemma eye_trace (n : nat) : trace (eye n) = RtoC (INR n).
Proof.
  unfold trace. cbn [shape0 eye].
  induction n as [|n IH].
  - reflexivity.
  - rewrite Csum_n_S. cbn [item eye] in *. rewrite IH, Nat.eqb_refl, S_INR.
    apply C_eq; simpl; ring.
Qed.

(** For a square input the stub's result is Hermitian with trace dimA. *)
Lemma reduced_density_matrix_A_trace (m : ndarray2) (dimA : Z) :
  shape0 m = shape1 m -> (1 <= dimA)%Z ->
  exists out,
    reduced_density_matrix_A m dimA = Ok out /\
    hermitian out /\ trace out = RtoC (IZR dimA).
Proof.
  intros Hsq Hd. exists (eye (Z.to_nat dimA)).
  split; [apply reduced_density_matrix_A_square; assumption|].
  split; [apply eye_hermitian|].
  rewrite eye_trace, INR_IZR_INZ, Z2Nat.id by lia. reflexivity.
Qed.

(** *** The notebook's test input: the singlet state *)

Lemma sqrt2_inv_sq : 1 / sqrt 2 * (1 / sqrt 2) = 1 / 2.
Proof.
  assert (H : sqrt 2 * sqrt 2 = 2) by (apply sqrt_sqrt; lra).
  assert (Hn : sqrt 2 <> 0) by (intros H0; rewrite H0 in H; lra).
  replace (1 / sqrt 2 * (1 / sqrt 2)) with (1 / (sqrt 2 * sqrt 2)) by (field; exact Hn).
  rewrite H. reflexivity.
Qed.

Lemma psi_entries :
  psi = [C0; RtoC (1 / sqrt 2); RtoC (- (1 / sqrt 2)); C0].
Proof.
  unfold psi, kron1, up, down. cbn [flat_map map app vsub1].
  repeat f_equal; apply C_eq; simpl; lra.
Qed.

Lemma rho_shape : shape0 rho = 4%nat /\ shape1 rho = 4%nat.
Proof. split; reflexivity. Qed.

Lemma rho_item (i j : nat) :
  item rho i j =
  Cmul (nth i [C0; RtoC (1 / sqrt 2); RtoC (- (1 / sqrt 2)); C0] C0)
       (Cconj (nth j [C0; RtoC (1 / sqrt 2); RtoC (- (1 / sqrt 2)); C0] C0)).
Proof.
  unfold rho, outer. cbn [item]. rewrite psi_entries.
  f_equal. rewrite <- (map_nth Cconj). rewrite Cconj_0. reflexivity.
Qed.

Lemma rho_pure : pure_state_density rho.
Proof.
  exists psi. split.
  - rewrite psi_entries. unfold inner. cbn [combine map Csum fst snd].
    pose proof sqrt2_inv_sq as H.
    apply C_eq; simpl; nra.
  - repeat split.
Qed.

Lemma rho_hermitian : hermitian rho.
Proof.
  split; [reflexivity|]. intros i j Hi Hj. rewrite !rho_item.
  change (shape0 rho) with 4%nat in Hi, Hj.
  destruct i as [|[|[|[|i]]]], j as [|[|[|[|j]]]]; try lia;
    cbn [nth]; apply C_eq; simpl; ring.
Qed.

Lemma rho_trace : trace rho = C1.
Proof.
  unfold trace. change (shape0 rho) with 4%nat.
  unfold Csum_n. cbn [seq map Csum]. rewrite !rho_item. cbn [nth].
  pose proof sqrt2_inv_sq as H.
  apply C_eq; simpl; nra.
Qed.

Lemma rho_expectation (v : nat -> C) :
  expectation rho v =
  RtoC (1 / 2 * Cnorm2 (Csub (v 1%nat) (v 2%nat))).
Proof.
  unfold expectation. change (shape0 rho) with 4%nat. change (shape1 rho) with 4%nat.
  unfold Csum_n. cbn [seq map Csum]. rewrite !rho_item. cbn [nth].
  rewrite <- sqrt2_inv_sq.
  destruct (v 0%nat) as [x0 y0], (v 1%nat) as [x1 y1],
           (v 2%nat) as [x2 y2], (v 3%nat) as [x3 y3].
  unfold Cnorm2, Csub. apply C_eq; simpl; ring.
Qed.

Lemma rho_density_matrix : density_matrix rho.
Proof.
  split; [exact rho_hermitian|]. split; [|exact rho_trace].
  intros v. rewrite rho_expectation. unfold Cnorm2. simpl.
  split; [|reflexivity].
  apply Rmult_le_pos; [lra|].
  apply Rplus_le_le_0_compat; apply Rle_0_sqr.
Qed.

(** The reduced density matrix of the singlet is half the identity. *)
Lemma rho_partial_trace_item (i j : nat) :
  (i < 2)%nat -> (j < 2)%nat ->
  item (partial_trace_B rho 2 2) i j = if Nat.eqb i j then RtoC (1 / 2) else C0.
Proof.
  intros Hi Hj.
  rewrite partial_trace_item by (try reflexivity; assumption).
  unfold Csum_n. cbn [seq map Csum]. rewrite !rho_item.
  pose proof sqrt2_inv_sq as H.
  destruct i as [|[|i]], j as [|[|j]]; try lia;
    cbn [Nat.mul Nat.add nth Nat.eqb]; apply C_eq; simpl; nra.
Qed.

(** A finished exercise would pass the notebook's check on this input. *)
Lemma rho_partial_trace_density :
  hermitian (partial_trace_B rho 2 2) /\ trace (partial_trace_B rho 2 2) = C1.
Proof.
  split.
  - apply partial_trace_hermitian; [reflexivity | exact rho_hermitian].
  - rewrite partial_trace_trace by reflexivity. exact rho_trace.
Qed.

(** C2: on the notebook's own test input (the singlet state, dimA = 2,
    which divides 4) the function does not return the partial trace: it
    returns the 2-by-2 identity, whose entry (0, 0) is 1, where Tr_B[rho]
    has 1/2. *)
Theorem reduced_density_matrix_A_not_partial_trace :
  exists out,
    rhoA = Ok out /\
    mat_eq out (eye 2) /\
    item out 0 0 = C1 /\
    item (partial_trace_B rho 2 2) 0 0 = RtoC (1 / 2) /\
    ~ mat_eq out (partial_trace_B rho 2 2).
Proof.
  exists (eye 2).
  split; [apply (reduced_density_matrix_A_square rho 2); [reflexivity | lia]|].
  split; [repeat split|].
  split; [reflexivity|].
  split; [apply (rho_partial_trace_item 0 0); lia|].
  intros (_ & _ & Hitems).
  specialize (Hitems 0%nat 0%nat ltac:(simpl; lia) ltac:(simpl; lia)).
  rewrite (rho_partial_trace_item 0 0) in Hitems by lia.
  apply (f_equal Re) in Hitems. simpl in Hitems. lra.
Qed.

(** C4: on the same pure-state input the returned matrix is Hermitian but
    its trace is 2, not 1. *)
Theorem reduced_density_matrix_A_trace_not_one :
  pure_state_density rho /\
  density_matrix rho /\
  exists out,
    rhoA = Ok out /\
    hermitian out /\
    trace out = RtoC 2 /\
    trace out <> C1.
Proof.
  split; [exact rho_pure|].
  split; [exact rho_density_matrix|].
  exists (eye 2).
  split; [apply (reduced_density_matrix_A_square rho 2); [reflexivity | lia]|].
  split; [apply eye_hermitian|].
  assert (Ht : trace (eye 2) = RtoC 2).
  { rewrite eye_trace. apply C_eq; simpl; lra. }
  split; [exact Ht|].
  rewrite Ht. intros H. apply (f_equal Re) in H. simpl in H. lra.
Qed.







(** *** Density matrices built as outer products *)

Lemma Cnorm2_nonneg_E (z : C) : 0 <= Cnorm2 z.
Proof. unfold Cnorm2. nra. Qed.

Lemma Csum_n_scale_l (n : nat) (c : C) (f : nat -> C) :
  Csum_n n (fun k => Cmul c (f k)) = Cmul c (Csum_n n f).
Proof.
  induction n as [|n IH].
  - cbn. apply C_eq; simpl; ring.
  - rewrite !Csum_n_S, IH. apply C_eq; simpl; ring.
Qed.

Lemma Csum_n_scale_r (n : nat) (c : C) (f : nat -> C) :
  Csum_n n (fun k => Cmul (f k) c) = Cmul (Csum_n n f) c.
Proof.
  induction n as [|n IH].
  - cbn. apply C_eq; simpl; ring.
  - rewrite !Csum_n_S, IH. apply C_eq; simpl; ring.
Qed.

Lemma nth_map_conj (j : nat) (v : ndarray1) :
  nth j (map Cconj v) C0 = Cconj (nth j v C0).
Proof. rewrite <- (map_nth Cconj). rewrite Cconj_0. reflexivity. Qed.

Lemma Cmul_conj_norm2 (z : C) : Cmul z (Cconj z) = RtoC (Cnorm2 z).
Proof. unfold Cnorm2. apply C_eq; simpl; ring. Qed.

Lemma Cconj_involutive (z : C) : Cconj (Cconj z) = z.
Proof. apply C_eq; simpl; ring. Qed.

(** <w|v><v|w> is the squared modulus of <w|v>. *)
Lemma outer_expectation (v : ndarray1) (w : nat -> C) :
  expectation (outer v (map Cconj v)) w =
  RtoC (Cnorm2 (Csum_n (length v) (fun i => Cmul (Cconj (w i)) (nth i v C0)))).
Proof.
  unfold expectation. cbn [outer shape0 shape1 item]. rewrite length_map.
  rewrite <- Cmul_conj_norm2.
  rewrite <- Csum_n_scale_r.
  apply Csum_n_ext. intros i _.
  rewrite Cconj_sum_n, <- Csum_n_scale_l. apply Csum_n_ext. intros j _.
  rewrite nth_map_conj, Cconj_mul, Cconj_involutive.
  apply C_eq; simpl; ring.
Qed.

Lemma Csum_n_front (n : nat) (f : nat -> C) :
  Csum_n (S n) f = Cadd (f 0%nat) (Csum_n n (fun k => f (S k))).
Proof.
  unfold Csum_n. cbn [seq map Csum]. rewrite <- seq_shift, map_map. reflexivity.
Qed.

Lemma Csum_n_nth (l : list C) (f : C -> C) :
  Csum_n (length l) (fun i => f (nth i l C0)) = Csum (map f l).
Proof.
  induction l as [|z l IH]; cbn [length]; [reflexivity|].
  rewrite Csum_n_front. cbn [nth map Csum]. rewrite IH. reflexivity.
Qed.

Lemma combine_diag {A B : Type} (h : A * A -> B) (l : list A) :
  map h (combine l l) = map (fun x => h (x, x)) l.
Proof. induction l as [|x l IH]; simpl; [reflexivity | rewrite IH; reflexivity]. Qed.

Lemma trace_outer (v : ndarray1) :
  trace (outer v (map Cconj v)) = inner v v.
Proof.
  unfold trace, inner. cbn [outer shape0 item].
  rewrite combine_diag. cbn [fst snd].
  rewrite <- (Csum_n_nth v (fun x => Cmul (Cconj x) x)).
  apply Csum_n_ext. intros i _. rewrite nth_map_conj.
  apply C_eq; simpl; ring.
Qed.

(** X7: [np.outer(psi, psi.conj())] is a density matrix for every
    normalised state vector [psi]: Hermitian, positive semidefinite, and of
    trace <psi|psi> = 1. *)
Theorem outer_density_matrix (v : ndarray1) :
  inner v v = C1 -> density_matrix (outer v (map Cconj v)).
Proof.
  intros Hnorm. split; [|split].
  - split; [cbn; symmetry; apply length_map|].
    intros i j _ _. cbn [outer item]. rewrite !nth_map_conj, Cconj_mul, Cconj_involutive.
    apply C_eq; simpl; ring.
  - intros w. rewrite outer_expectation. cbn [RtoC Re Im].
    split; [apply Cnorm2_nonneg_E | reflexivity].
  - rewrite trace_outer. exact Hnorm.
Qed.

Lemma psi_normalised : inner psi psi = C1.
Proof.
  rewrite psi_entries. unfold inner. cbn [combine map Csum fst snd].
  pose proof sqrt2_inv_sq as H.
  apply C_eq; simpl; nra.
Qed.

Lemma outer_density_matrix_witness : density_matrix rho.
Proof. exact (outer_density_matrix psi psi_normalised). Defined.

(** *** The starter code of Task 3 *)

(** X8: whatever the normal draws, the operator [V] of the starter code is
    a d-by-d Hermitian matrix (so that [eigvalsh] applies to it), and its
    diagonal is real. *)
Theorem starter_V_hermitian (d : nat) (U W : nat -> nat -> R) :
  shape0 (starter_V d U W) = d /\
  hermitian (starter_V d U W) /\
  forall i, Im (item (starter_V d U W) i i) = 0.
Proof.
  split; [reflexivity|]. split.
  - split; [reflexivity|]. intros i j _ _.
    unfold starter_V, starter_A, mscale, madd, conj2, transpose2. cbn [item].
    apply C_eq; simpl; ring.
  - intros i. unfold starter_V, starter_A, mscale, madd, conj2, transpose2.
    cbn [item]. simpl. ring.
Qed.

End EntanglementFacts.

(** ** The entanglement notebook: cells and the shared kernel *)

Module NotebookFacts.
Import Notebook.
Local Open Scope string_scope.

(** *** The model reproduces the outputs recorded in the notebook *)

Example cell_vectors_output :
  outcome_after [] cell_vectors =
  (Ok tt, [("", Arr1 [(2, 0); (4, 0); (6, 0); (-1, 0); (-2, 0); (-3, 0)]%Z)]).
Proof. vm_compute. reflexivity. Qed.

Example cell_swapped_output :
  outcome_after [cell_vectors] cell_swapped =
  (Ok tt, [("", Arr1 [(2, 0); (-1, 0); (4, 0); (-2, 0); (6, 0); (-3, 0)]%Z)]).
Proof. vm_compute. reflexivity. Qed.

Example cell_operators_output :
  outcome_after [cell_vectors; cell_swapped] cell_operators =
  (Ok tt,
   [("LHS: ", Arr1 [(12, 9); (32, 24); (4, 3); (-3, 9); (-8, 24); (-1, 3)]%Z);
    ("RHS: ", Arr1 [(12, 9); (32, 24); (4, 3); (-3, 9); (-8, 24); (-1, 3)]%Z)]).
Proof. vm_compute. reflexivity. Qed.


Example cell_right_projection_output :
  outcome_after [cell_vectors; cell_swapped; cell_operators; cell_basis;
                 cell_left_projection] cell_right_projection =
  (Ok tt,
   [("LHS1: ", Arr1 [(5, 5); (18, -6); (1, 13)]%Z);
    ("RHS1: ", Arr1 [(5, 5); (18, -6); (1, 13)]%Z);
    ("LHS2: ", Arr1 [(-3, -22); (-6, -10)]%Z);
    ("RHS2: ", Arr1 [(-3, -22); (-6, -10)]%Z)]).
Proof. vm_compute. reflexivity. Qed.

(** Run top to bottom, no cell of the notebook raises. *)
Example notebook_in_order :
  map (fun i => fst (outcome_after (firstn i notebook) (nth i notebook (ret tt))))
      (seq 0 (length notebook)) =
  repeat (Ok tt) (length notebook).
Proof. vm_compute. reflexivity. Qed.

(** The third cell rebinds [a], which the first cell had defined. *)
Example cell_operators_rebinds_a :
  run_history [cell_vectors] !! "a" = Some (Arr1 [(2, 0); (-1, 0)]%Z) /\
  run_history [cell_vectors; cell_swapped; cell_operators] !! "a" =
    Some (Arr1 [(2, 1); (0, 1)]%Z).
Proof. split; vm_compute; reflexivity. Qed.



(** *** What a cell reads decides its result *)

Section frame.
Context {A B : Type}.

Lemma respects_ret (xs : list string) (a : A) : respects xs (ret a) xs.
Proof. intros k1 k2 [Hout Hag]. simpl. auto. Qed.

Lemma respects_lift (xs : list string) (r : result A) : respects xs (lift r) xs.
Proof. intros k1 k2 [Hout Hag]. simpl. auto. Qed.

Lemma respects_bind (xs ys zs : list string) (m : M A) (f : A -> M B) :
  respects xs m ys ->
  (forall a, respects ys (f a) zs) ->
  respects xs (bind m f) zs.
Proof.
  intros Hm Hf k1 k2 Hk. unfold bind.
  destruct (Hm k1 k2 Hk) as (Hr & Hout & Hag).
  destruct (m k1) as [r1 k1'], (m k2) as [r2 k2']. simpl in *. subst r2.
  destruct r1 as [a|e].
  - apply Hf. split; [exact Hout | exact (Hag a eq_refl)].
  - simpl. repeat split; [exact Hout | discriminate].
Qed.

End frame.

Lemma respects_load (xs : list string) (x : string) :
  In x xs -> respects xs (load x) xs.
Proof.
  intros Hx k1 k2 [Hout Hag]. unfold load. rewrite (Hag x Hx).
  destruct (globals k2 !! x); simpl; auto.
Qed.

Lemma respects_store (xs : list string) (x : string) (v : value) :
  respects xs (store x v) (x :: xs).
Proof.
  intros k1 k2 [Hout Hag]. simpl. repeat split; [exact Hout|].
  intros _ _ y Hy.
  destruct (decide (x = y)) as [->|Hne].
  - rewrite !lookup_insert_eq. reflexivity.
  - rewrite !lookup_insert_ne by exact Hne.
    apply Hag. destruct Hy as [Hy|Hy]; [contradiction | exact Hy].
Qed.

Lemma respects_print (xs : list string) (label : string) (v : value) :
  respects xs (print label v) xs.
Proof.
  intros k1 k2 [Hout Hag]. simpl. rewrite Hout. auto.
Qed.

Lemma respects_np_attr (xs : list string) :
  In "np" xs -> respects xs np_attr xs.
Proof.
  intros Hx k1 k2 [Hout Hag]. unfold np_attr. rewrite (Hag "np" Hx).
  destruct (globals k2 !! "np") as [[]|]; simpl; auto.
Qed.

Create HintDb frame.
#[local] Hint Resolve respects_ret respects_lift respects_load respects_store
  respects_print respects_np_attr : frame.

Lemma respects_np_array (xs : list string) (v : value) :
  In "np" xs -> respects xs (np_array v) xs.
Proof. intros Hx. unfold np_array. eapply respects_bind; eauto with frame. Qed.

Lemma respects_call_kron (xs : list string) (x y : M value) :
  In "np" xs -> respects xs x xs -> respects xs y xs ->
  respects xs (call_kron x y) xs.
Proof.
  intros Hnp Hx Hy. unfold call_kron.
  eapply respects_bind; [eauto with frame|intros _].
  eapply respects_bind; [exact Hx|intros a].
  eapply respects_bind; [exact Hy|intros b]. apply respects_lift.
Qed.

Lemma respects_call_dot (xs : list string) (x y : M value) :
  In "np" xs -> respects xs x xs -> respects xs y xs ->
  respects xs (call_dot x y) xs.
Proof.
  intros Hnp Hx Hy. unfold call_dot.
  eapply respects_bind; [eauto with frame|intros _].
  eapply respects_bind; [exact Hx|intros a].
  eapply respects_bind; [exact Hy|intros b]. apply respects_lift.
Qed.

Lemma respects_times (xs : list string) (x y : M value) :
  respects xs x xs -> respects xs y xs -> respects xs (times x y) xs.
Proof.
  intros Hx Hy. unfold times.
  eapply respects_bind; [exact Hx|intros a].
  eapply respects_bind; [exact Hy|intros b]. apply respects_lift.
Qed.

Lemma respects_conj_of (xs : list string) (x : M value) :
  respects xs x xs -> respects xs (conj_of x) xs.
Proof.
  intros Hx. unfold conj_of.
  eapply respects_bind; [exact Hx|intros a]. apply respects_lift.
Qed.

Lemma respects_T_of (xs : list string) (x : M value) :
  respects xs x xs -> respects xs (T_of x) xs.
Proof.
  intros Hx. unfold T_of.
  eapply respects_bind; [exact Hx|intros a]. apply respects_lift.
Qed.

Lemma respects_shape_of (xs : list string) (x : M value) :
  respects xs x xs -> respects xs (shape_of x) xs.
Proof.
  intros Hx. unfold shape_of.
  eapply respects_bind; [exact Hx|intros a]. apply respects_lift.
Qed.

Lemma respects_assign (xs : list string) (x : string) (e : M value) :
  respects xs e xs -> respects xs (assign x e) (x :: xs).
Proof.
  intros He. unfold assign.
  eapply respects_bind; [exact He|intros v]. apply respects_store.
Qed.

Lemma respects_print_expr (xs : list string) (label : string) (e : M value) :
  respects xs e xs -> respects xs (print_expr label e) xs.
Proof.
  intros He. unfold print_expr.
  eapply respects_bind; [exact He|intros v]. apply respects_print.
Qed.

(** One statement of a cell after another, then the expressions inside. *)
Ltac frame :=
  repeat lazymatch goal with
    | |- respects _ (bind _ _) _ => eapply respects_bind; [|intros ?]
    | |- respects _ (assign _ _) _ => apply respects_assign
    | |- respects _ (print_expr _ _) _ => apply respects_print_expr
    | |- respects _ (call_kron _ _) _ => apply respects_call_kron
    | |- respects _ (call_dot _ _) _ => apply respects_call_dot
    | |- respects _ (times _ _) _ => apply respects_times
    | |- respects _ (conj_of _) _ => apply respects_conj_of
    | |- respects _ (T_of _) _ => apply respects_T_of
    | |- respects _ (shape_of _) _ => apply respects_shape_of
    | |- respects _ (np_array _) _ => apply respects_np_array
    | |- respects _ (load _) _ => apply respects_load
    | |- respects _ (store _ _) _ => apply respects_store
    | |- In _ _ => simpl; tauto
    end.

Lemma respects_outcome (xs ys : list string) (c : M unit) :
  respects xs c ys ->
  forall ns1 ns2, agree_on xs ns1 ns2 -> cell_outcome c ns1 = cell_outcome c ns2.
Proof.
  intros Hc ns1 ns2 Hag. unfold cell_outcome, run_cell.
  destruct (Hc (mkKernel ns1 []) (mkKernel ns2 [])) as (Hr & Hout & _).
  { split; [reflexivity | exact Hag]. }
  rewrite Hr, Hout. reflexivity.
Qed.

Lemma cell_reads_respected (c : M unit) (xs : list string) :
  In (c, xs) cell_reads -> exists ys, respects xs c ys.
Proof.
  unfold cell_reads. simpl.
  intros [H|[H|[H|[H|[H|[H|[]]]]]]]; injection H as <- <-; eexists.
  - unfold cell_vectors. frame.
  - unfold cell_swapped. frame.
  - unfold cell_operators. frame.
  - unfold cell_basis. frame.
  - unfold cell_left_projection, reads_left_projection. frame.
  - unfold cell_right_projection, reads_right_projection. frame.
Qed.

(** The first cell binds every name it uses: it is independent. *)
Lemma cell_vectors_independent : independent cell_vectors.
Proof.
  intros h1 h2.
  destruct (cell_reads_respected cell_vectors []) as [ys Hys]; [simpl; auto|].
  apply (respects_outcome [] ys); [exact Hys|]. intros x [].
Qed.



(** *** Arithmetic of the array entries *)

Section cnum_ring.
Local Open Scope Z_scope.

Lemma cmul_comm (x y : cnum) : cmul x y = cmul y x.
Proof. destruct x, y. unfold cmul. simpl. f_equal; ring. Qed.

Lemma cmul_assoc (x y z : cnum) : cmul x (cmul y z) = cmul (cmul x y) z.
Proof. destruct x, y, z. unfold cmul. simpl. f_equal; ring. Qed.

Lemma cmul_cadd_distr_r (x y z : cnum) :
  cmul (cadd x y) z = cadd (cmul x z) (cmul y z).
Proof. destruct x, y, z. unfold cmul, cadd. simpl. f_equal; ring. Qed.

Lemma cmul_cadd_distr_l (x y z : cnum) :
  cmul x (cadd y z) = cadd (cmul x y) (cmul x z).
Proof. destruct x, y, z. unfold cmul, cadd. simpl. f_equal; ring. Qed.

Lemma cmul_0_l (z : cnum) : cmul (0, 0) z = (0, 0).
Proof. destruct z. unfold cmul. simpl. f_equal; ring. Qed.

Lemma cmul_0_r (z : cnum) : cmul z (0, 0) = (0, 0).
Proof. destruct z. unfold cmul. simpl. f_equal; ring. Qed.

Lemma cadd_0_r (z : cnum) : cadd z (0, 0) = z.
Proof. destruct z. unfold cadd. simpl. f_equal; ring. Qed.

Lemma cconj_cmul (x y : cnum) : cconj (cmul x y) = cmul (cconj x) (cconj y).
Proof. destruct x, y. unfold cmul, cconj. simpl. f_equal; ring. Qed.

Lemma cmul_swap (a b c d : cnum) :
  cmul (cmul a b) (cmul c d) = cmul (cmul a c) (cmul b d).
Proof. destruct a, b, c, d. unfold cmul. simpl. f_equal; ring. Qed.

End cnum_ring.

(** *** Inner products of tensor products *)

Lemma vdot_nil_r (a : list cnum) : vdot a [] = (0, 0)%Z.
Proof. unfold vdot. destruct a; reflexivity. Qed.

Lemma vdot_cons (x y : cnum) (a b : list cnum) :
  vdot (x :: a) (y :: b) = cadd (cmul x y) (vdot a b).
Proof. reflexivity. Qed.

Lemma vdot_scale (x y : cnum) (a b : list cnum) :
  vdot (map (cmul x) a) (map (cmul y) b) = cmul (cmul x y) (vdot a b).
Proof.
  revert b. induction a as [|u a IH]; intros [|w b]; cbn [map];
    rewrite ?vdot_nil_r, ?cmul_0_r; try reflexivity.
  rewrite !vdot_cons, IH, cmul_cadd_distr_l, cmul_swap. reflexivity.
Qed.

Lemma vdot_app (a1 a2 b1 b2 : list cnum) :
  length a1 = length b1 ->
  vdot (a1 ++ a2) (b1 ++ b2) = cadd (vdot a1 b1) (vdot a2 b2).
Proof.
  revert b1. induction a1 as [|x a1 IH]; intros [|y b1] Hlen; try discriminate Hlen.
  - cbn [app]. unfold vdot at 2. cbn. destruct (vdot a2 b2) as [p q].
    unfold cadd. simpl. f_equal; lia.
  - cbn [app]. rewrite !vdot_cons, IH by (simpl in Hlen; lia).
    destruct (cmul x y), (vdot a1 b1), (vdot a2 b2). unfold cadd. simpl. f_equal; lia.
Qed.

Lemma kron1_length (a b : list cnum) : length (kron1 a b) = (length a * length b)%nat.
Proof.
  unfold kron1. induction a as [|x a IH]; [reflexivity|].
  cbn [flat_map length]. rewrite length_app, length_map, IH. lia.
Qed.

(** <a1 (x) b1, a2 (x) b2> = <a1, a2> <b1, b2>. *)
Lemma vdot_kron1 (a1 a2 b1 b2 : list cnum) :
  length b1 = length b2 ->
  vdot (kron1 a1 b1) (kron1 a2 b2) = cmul (vdot a1 a2) (vdot b1 b2).
Proof.
  intros Hb. revert a2. induction a1 as [|x a1 IH]; intros [|y a2].
  - unfold kron1, vdot. cbn. rewrite cmul_0_l. reflexivity.
  - unfold kron1 at 1. cbn [flat_map]. unfold vdot at 1 2. cbn. rewrite cmul_0_l. reflexivity.
  - rewrite !vdot_nil_r, cmul_0_l. reflexivity.
  - unfold kron1. cbn [flat_map]. fold (kron1 a1 b1). fold (kron1 a2 b2).
    rewrite vdot_app by (rewrite !length_map; exact Hb).
    rewrite vdot_scale, IH, vdot_cons, cmul_cadd_distr_r. reflexivity.
Qed.

Lemma matvec_kron_row (ra : list cnum) (B : list (list cnum)) (a b : list cnum) :
  rectangular (length b) B ->
  map (fun rb => vdot (kron1 ra rb) (kron1 a b)) B =
  map (cmul (vdot ra a)) (matvec B b).
Proof.
  intros HB. unfold matvec. rewrite map_map.
  induction HB as [|rb B Hrb HB IHB]; [reflexivity|].
  cbn [map]. rewrite vdot_kron1 by exact Hrb. f_equal. exact IHB.
Qed.

Lemma matvec_kron2 (A B : list (list cnum)) (a b : list cnum) :
  rectangular (length b) B ->
  matvec (kron2 A B) (kron1 a b) = kron1 (matvec A a) (matvec B b).
Proof.
  intros HB. unfold kron2.
  induction A as [|ra A IH]; [reflexivity|].
  cbn [flat_map]. unfold matvec at 1. rewrite map_app, map_map.
  fold (matvec (flat_map (fun ra0 => map (fun rb => kron1 ra0 rb) B) A) (kron1 a b)).
  rewrite IH, (matvec_kron_row ra B a b HB). reflexivity.
Qed.

Lemma ncols_kron2 (A B : list (list cnum)) :
  A <> [] -> B <> [] -> ncols (kron2 A B) = (ncols A * ncols B)%nat.
Proof.
  destruct A as [|ra A]; [contradiction|]. destruct B as [|rb B]; [contradiction|].
  intros _ _. unfold ncols, kron2. cbn [flat_map map app hd]. apply kron1_length.
Qed.

Lemma ncols_rectangular (n : nat) (A : list (list cnum)) :
  A <> [] -> rectangular n A -> ncols A = n.
Proof.
  destruct A as [|ra A]; [contradiction|]. intros _ H.
  inversion H; subst. reflexivity.
Qed.

Lemma np_dot_matvec (A : list (list cnum)) (v : list cnum) :
  ncols A = length v -> np_dot (Arr2 A) (Arr1 v) = Ok (Arr1 (matvec A v)).
Proof. intros H. cbn [np_dot]. rewrite H, Nat.eqb_refl. reflexivity. Qed.

(** X9: the identity that In [7] checks on one example holds for all
    operators and vectors of matching shapes:
    (OA (x) OB)(a (x) b) = (OA a) (x) (OB b), both sides being computed
    without error. *)
Theorem tensor_product_check
    (OA OB : list (list cnum)) (a b : list cnum) :
  OA <> [] -> OB <> [] ->
  rectangular (length a) OA -> rectangular (length b) OB ->
  tensor_lhs (Arr2 OA) (Arr2 OB) (Arr1 a) (Arr1 b) =
    Ok (Arr1 (kron1 (matvec OA a) (matvec OB b))) /\
  tensor_rhs (Arr2 OA) (Arr2 OB) (Arr1 a) (Arr1 b) =
    Ok (Arr1 (kron1 (matvec OA a) (matvec OB b))).
Proof.
  intros HA HB HrA HrB. unfold tensor_lhs, tensor_rhs.
  cbn [np_kron result_bind].
  rewrite !np_dot_matvec.
  - cbn [result_bind np_kron]. rewrite matvec_kron2 by exact HrB. split; reflexivity.
  - apply ncols_rectangular; assumption.
  - apply ncols_rectangular; assumption.
  - rewrite ncols_kron2, kron1_length by assumption.
    rewrite (ncols_rectangular _ _ HA HrA), (ncols_rectangular _ _ HB HrB). reflexivity.
Qed.

Lemma tensor_product_check_witness :
  tensor_lhs (Arr2 [[(2, 0); (1, 0)]; [(0, 1); (1, 0)]]%Z)
             (Arr2 [[(1, 0); (0, 2); (3, 0)]; [(0, 0); (4, 0); (0, 0)];
                    [(1, 0); (0, 0); (0, 1)]]%Z)
             (Arr1 [(2, 1); (0, 1)]%Z) (Arr1 [(0, -1); (2, 0); (1, -1)]%Z) =
  Ok (Arr1 [(12, 9); (32, 24); (4, 3); (-3, 9); (-8, 24); (-1, 3)]%Z).
Proof.
  refine (proj1 (tensor_product_check _ _ _ _ _ _ _ _)).
  - discriminate.
  - discriminate.
  - repeat constructor.
  - repeat constructor.
Defined.

(** *** Running a cell on a kernel state *)

Lemma bind_run {A B : Type} (m : M A) (f : A -> M B) (k k' : kernel) (a : A) :
  m k = (Ok a, k') -> bind m f k = f a k'.
Proof. intros H. unfold bind. rewrite H. reflexivity. Qed.

Lemma bind_raise {A B : Type} (m : M A) (f : A -> M B) (k k' : kernel) (e : exn) :
  m k = (Raise e, k') -> bind m f k = (Raise e, k').
Proof. intros H. unfold bind. rewrite H. reflexivity. Qed.

Lemma np_attr_run (k : kernel) :
  globals k !! "np" = Some Module_numpy -> np_attr k = (Ok tt, k).
Proof. intros H. unfold np_attr. rewrite H. reflexivity. Qed.

Lemma evals_load (x : string) (k : kernel) (v : value) :
  globals k !! x = Some v -> evals (load x) k v.
Proof. intros H. unfold evals, load. rewrite H. reflexivity. Qed.

Lemma evals_np_array (v : value) (k : kernel) :
  globals k !! "np" = Some Module_numpy -> evals (np_array v) k v.
Proof.
  intros H. unfold evals, np_array.
  rewrite (bind_run _ _ _ _ _ (np_attr_run k H)). reflexivity.
Qed.

Lemma evals_call_kron (x y : M value) (k : kernel) (a b r : value) :
  globals k !! "np" = Some Module_numpy ->
  evals x k a -> evals y k b -> np_kron a b = Ok r ->
  evals (call_kron x y) k r.
Proof.
  intros Hnp Hx Hy Hr. unfold evals, call_kron.
  rewrite (bind_run _ _ _ _ _ (np_attr_run k Hnp)).
  rewrite (bind_run _ _ _ _ _ Hx), (bind_run _ _ _ _ _ Hy).
  unfold lift. rewrite Hr. reflexivity.
Qed.

Lemma evals_call_dot (x y : M value) (k : kernel) (a b r : value) :
  globals k !! "np" = Some Module_numpy ->
  evals x k a -> evals y k b -> np_dot a b = Ok r ->
  evals (call_dot x y) k r.
Proof.
  intros Hnp Hx Hy Hr. unfold evals, call_dot.
  rewrite (bind_run _ _ _ _ _ (np_attr_run k Hnp)).
  rewrite (bind_run _ _ _ _ _ Hx), (bind_run _ _ _ _ _ Hy).
  unfold lift. rewrite Hr. reflexivity.
Qed.

Lemma evals_times (x y : M value) (k : kernel) (a b r : value) :
  evals x k a -> evals y k b -> py_mul a b = Ok r -> evals (times x y) k r.
Proof.
  intros Hx Hy Hr. unfold evals, times.
  rewrite (bind_run _ _ _ _ _ Hx), (bind_run _ _ _ _ _ Hy).
  unfold lift. rewrite Hr. reflexivity.
Qed.

Lemma evals_conj_of (x : M value) (k : kernel) (a r : value) :
  evals x k a -> np_conj a = Ok r -> evals (conj_of x) k r.
Proof.
  intros Hx Hr. unfold evals, conj_of.
  rewrite (bind_run _ _ _ _ _ Hx). unfold lift. rewrite Hr. reflexivity.
Qed.

Lemma evals_T_of (x : M value) (k : kernel) (a r : value) :
  evals x k a -> np_T a = Ok r -> evals (T_of x) k r.
Proof.
  intros Hx Hr. unfold evals, T_of.
  rewrite (bind_run _ _ _ _ _ Hx). unfold lift. rewrite Hr. reflexivity.
Qed.

Lemma evals_shape_of (x : M value) (k : kernel) (a r : value) :
  evals x k a -> np_shape a = Ok r -> evals (shape_of x) k r.
Proof.
  intros Hx Hr. unfold evals, shape_of.
  rewrite (bind_run _ _ _ _ _ Hx). unfold lift. rewrite Hr. reflexivity.
Qed.

Lemma assign_run (x : string) (e : M value) (k : kernel) (v : value) :
  evals e k v ->
  assign x e k = (Ok tt, mkKernel (<[x := v]> (globals k)) (stdout k)).
Proof. intros He. unfold assign. rewrite (bind_run _ _ _ _ _ He). reflexivity. Qed.

Lemma print_expr_run (label : string) (e : M value) (k : kernel) (v : value) :
  evals e k v ->
  print_expr label e k = (Ok tt, mkKernel (globals k) (stdout k ++ [(label, v)])).
Proof. intros He. unfold print_expr. rewrite (bind_run _ _ _ _ _ He). reflexivity. Qed.

(** A name looked up through the assignments made so far. *)
Ltac lookup :=
  cbn [globals];
  repeat (rewrite lookup_insert_ne by (intros ?; discriminate));
  first [ apply lookup_insert_eq | eassumption ].

Lemma np_dot_vdot (a b : list cnum) :
  length a = length b -> np_dot (Arr1 a) (Arr1 b) = Ok (Scalar (vdot a b)).
Proof. intros H. cbn [np_dot]. rewrite H, Nat.eqb_refl. reflexivity. Qed.

Lemma kron2_single_l (x : list cnum) (B : list (list cnum)) :
  kron2 [x] B = map (kron1 x) B.
Proof. unfold kron2. cbn [flat_map]. apply app_nil_r. Qed.

Lemma kron2_single_r (A : list (list cnum)) (y : list cnum) :
  kron2 A [y] = map (fun ra => kron1 ra y) A.
Proof.
  unfold kron2. induction A as [|ra A IH]; [reflexivity|].
  simpl in *. f_equal; exact IH.
Qed.

Lemma kron1_single_l (c : cnum) (b : list cnum) : kron1 [c] b = map (cmul c) b.
Proof. unfold kron1. cbn [flat_map]. apply app_nil_r. Qed.

Lemma kron1_single_r (a : list cnum) (c : cnum) :
  kron1 a [c] = map (fun x => cmul x c) a.
Proof.
  unfold kron1. induction a as [|x a IH]; [reflexivity|].
  simpl in *. f_equal; exact IH.
Qed.

(** *** Transposes *)

Lemma map_nth_seq_id {A : Type} (l : list A) (d : A) :
  map (fun j => nth j l d) (seq 0 (length l)) = l.
Proof.
  induction l as [|x l IH]; [reflexivity|].
  cbn [length seq map nth]. f_equal.
  rewrite <- seq_shift, map_map. exact IH.
Qed.

Lemma transpose_length (m : list (list cnum)) : length (transpose m) = ncols m.
Proof. unfold transpose. rewrite length_map, length_seq. reflexivity. Qed.

Lemma transpose_rectangular (m : list (list cnum)) :
  rectangular (length m) (transpose m).
Proof.
  unfold rectangular, transpose. apply List.Forall_forall. intros col Hcol.
  apply in_map_iff in Hcol. destruct Hcol as (j & <- & _).
  unfold column. apply length_map.
Qed.

Lemma transpose_nonempty (m : list (list cnum)) :
  (0 < ncols m)%nat -> transpose m <> [].
Proof.
  intros H Hnil. apply (f_equal (@length _)) in Hnil.
  rewrite transpose_length in Hnil. simpl in Hnil. lia.
Qed.

Lemma ncols_transpose (m : list (list cnum)) :
  (0 < ncols m)%nat -> ncols (transpose m) = length m.
Proof.
  intros H. apply ncols_rectangular.
  - apply transpose_nonempty, H.
  - apply transpose_rectangular.
Qed.

Lemma nth_column (i j : nat) (m : list (list cnum)) :
  nth i (column j m) (0, 0)%Z = nth j (nth i m []) (0, 0)%Z.
Proof.
  unfold column.
  rewrite <- (map_nth (fun row => nth j row (0, 0)%Z) m []).
  f_equal. destruct j; reflexivity.
Qed.

Lemma transpose_involutive (n : nat) (m : list (list cnum)) :
  (0 < n)%nat -> rectangular n m -> transpose (transpose m) = m.
Proof.
  intros Hn Hm. destruct m as [|r0 m0] eqn:Em; [reflexivity|]. rewrite <- Em in *.
  assert (Hne : m <> []) by (rewrite Em; discriminate).
  assert (Hc : ncols m = n) by (apply ncols_rectangular; assumption).
  unfold transpose at 1. rewrite ncols_transpose by lia.
  transitivity (map (fun i => nth i m []) (seq 0 (length m)));
    [|apply map_nth_seq_id].
  apply map_ext_in. intros i Hi. apply in_seq in Hi.
  assert (Hrow : length (nth i m []) = n).
  { unfold rectangular in Hm. rewrite List.Forall_forall in Hm.
    apply Hm, nth_In. lia. }
  transitivity (map (fun j => nth j (nth i m []) (0, 0)%Z) (seq 0 n));
    [|rewrite <- Hrow; apply map_nth_seq_id].
  unfold column at 1. unfold transpose. rewrite map_map, Hc.
  apply map_ext. intros j. apply nth_column.
Qed.

Lemma kron1_conj (a b : list cnum) :
  map cconj (kron1 a b) = kron1 (map cconj a) (map cconj b).
Proof.
  unfold kron1. induction a as [|x a IH]; [reflexivity|].
  cbn [flat_map map]. rewrite map_app, IH. f_equal.
  rewrite !map_map. apply map_ext. intros y. apply cconj_cmul.
Qed.

Lemma np_dot_vecmat (v : list cnum) (B : list (list cnum)) :
  length v = length B ->
  np_dot (Arr1 v) (Arr2 B) = Ok (Arr1 (map (vdot v) (transpose B))).
Proof. intros H. cbn [np_dot]. rewrite H, Nat.eqb_refl. reflexivity. Qed.

Lemma rectangular_map_kron1_l (x : list cnum) (n : nat) (B : list (list cnum)) :
  rectangular n B -> rectangular (length x * n) (map (kron1 x) B).
Proof.
  intros H. induction H as [|r B Hr HB IH]; constructor; [|exact IH].
  rewrite kron1_length, Hr. reflexivity.
Qed.

Lemma rectangular_map_kron1_r (y : list cnum) (n : nat) (A : list (list cnum)) :
  rectangular n A -> rectangular (n * length y) (map (fun r => kron1 r y) A).
Proof.
  intros H. induction H as [|r A Hr HA IH]; constructor; [|exact IH].
  rewrite kron1_length, Hr. reflexivity.
Qed.

Lemma ncols_single (x : list cnum) : ncols [x] = length x.
Proof. reflexivity. Qed.

(** Shapes of the arrays met while a cell runs. *)
Ltac shape :=
  repeat first
    [ rewrite ncols_single
    | rewrite ncols_kron2
        by first [assumption | discriminate | apply transpose_nonempty; assumption]
    | rewrite kron1_length
    | rewrite length_map
    | rewrite transpose_length
    | rewrite ncols_transpose by assumption
    | match goal with
      | H : rectangular ?n ?A |- context [ncols ?A] =>
          rewrite (ncols_rectangular n A) by (assumption || discriminate)
      end
    | match goal with H : length _ = _ |- _ => rewrite H end ];
  try reflexivity.

(** Evaluating an expression of a cell, with the numpy calls it makes. *)
Ltac evals_tac :=
  lazymatch goal with
  | |- evals (load _) _ _ => apply evals_load; lookup
  | |- evals (np_array _) _ _ => apply evals_np_array; lookup
  | |- evals (call_kron _ _) _ _ =>
      eapply evals_call_kron; [lookup | evals_tac | evals_tac | reflexivity]
  | |- evals (call_dot _ _) _ _ =>
      eapply evals_call_dot;
      [lookup | evals_tac | evals_tac
      | first [apply np_dot_matvec | apply np_dot_vdot | apply np_dot_vecmat]; shape]
  | |- evals (times _ _) _ _ =>
      eapply evals_times; [evals_tac | evals_tac | reflexivity]
  | |- evals (conj_of _) _ _ => eapply evals_conj_of; [evals_tac | reflexivity]
  | |- evals (T_of _) _ _ => eapply evals_T_of; [evals_tac | reflexivity]
  | |- evals (shape_of _) _ _ => eapply evals_shape_of; [evals_tac | reflexivity]
  end.

(** One statement of a cell. *)
Ltac run_stmt :=
  cbv beta;
  erewrite bind_run;
  [| first [eapply assign_run | eapply print_expr_run]; evals_tac].

Lemma cell_left_projection_run
    (ns : gmap string value) (a b : list cnum) (OA OB : list (list cnum)) :
  ns !! "np" = Some Module_numpy ->
  ns !! "a" = Some (Arr1 a) -> ns !! "b" = Some (Arr1 b) ->
  ns !! "OA" = Some (Arr2 OA) -> ns !! "OB" = Some (Arr2 OB) ->
  length a = 2%nat -> length b = 3%nat ->
  OA <> [] -> OB <> [] -> rectangular 2 OA -> rectangular 3 OB ->
  exists g',
  run_cell cell_left_projection ns =
  (Ok tt, mkKernel g'
   [("LHS1: ", Arr1 (map (cmul (vdot (map cconj alpha_lit) a)) (matvec OB b)));
    ("RHS1: ", Arr1 (map (cmul (vdot (map cconj alpha_lit) a)) (matvec OB b)));
    ("Shape of the <alpha| x O_B matrix is", Shape [length OB; 6%nat]);
    ("LHS2: ", Arr1 (map (cmul (vdot (map cconj beta_lit) b)) (matvec OA a)));
    ("RHS2: ", Arr1 (map (cmul (vdot (map cconj beta_lit) b)) (matvec OA a)));
    ("Shape of the O_A x <beta| matrix is", Shape [length OA; 6%nat])]).
Proof.
  intros Hnp Ha Hb HOA HOB Hla Hlb HA HB HrA HrB.
  eexists. unfold run_cell, cell_left_projection.
  do 9 run_stmt. cbv beta.
  erewrite print_expr_run; [|evals_tac].
  cbn [stdout globals app].
  assert (HrB' : rectangular (length b) OB) by (rewrite Hlb; exact HrB).
  assert (Hrbeta : rectangular (length b) [map cconj beta_lit])
    by (constructor; [rewrite Hlb; reflexivity | constructor]).
  unfold alpha_lit, beta_lit in *.
  rewrite (matvec_kron2 _ OB a b HrB'), (matvec_kron2 OA _ a b Hrbeta).
  cbn [matvec map]. fold (matvec OB b). fold (matvec OA a).
  rewrite kron1_single_l, kron1_single_r.
  rewrite (map_ext _ _ (fun x => cmul_comm x _)).
  rewrite !ncols_kron2 by (assumption || discriminate).
  rewrite kron2_single_l, kron2_single_r, !length_map.
  rewrite (ncols_rectangular 2 OA), (ncols_rectangular 3 OB) by assumption.
  reflexivity.
Qed.

(** X10: whatever vectors [a] (2 entries) and [b] (3 entries) and
    operators [OA] (2 columns) and [OB] (3 columns) the earlier cells left,
    the left-projection cell raises nothing and prints equal sides:
    LHS1 = RHS1 = <alpha|a> (OB b) and LHS2 = RHS2 = <beta|b> (OA a), with
    projectors of shapes (rows of OB, 6) and (rows of OA, 6). *)
Theorem cell_left_projection_sides_agree
    (ns : gmap string value) (a b : list cnum) (OA OB : list (list cnum)) :
  ns !! "np" = Some Module_numpy ->
  ns !! "a" = Some (Arr1 a) -> ns !! "b" = Some (Arr1 b) ->
  ns !! "OA" = Some (Arr2 OA) -> ns !! "OB" = Some (Arr2 OB) ->
  length a = 2%nat -> length b = 3%nat ->
  OA <> [] -> OB <> [] -> rectangular 2 OA -> rectangular 3 OB ->
  cell_outcome cell_left_projection ns =
  (Ok tt,
   [("LHS1: ", Arr1 (map (cmul (vdot (map cconj alpha_lit) a)) (matvec OB b)));
    ("RHS1: ", Arr1 (map (cmul (vdot (map cconj alpha_lit) a)) (matvec OB b)));
    ("Shape of the <alpha| x O_B matrix is", Shape [length OB; 6%nat]);
    ("LHS2: ", Arr1 (map (cmul (vdot (map cconj beta_lit) b)) (matvec OA a)));
    ("RHS2: ", Arr1 (map (cmul (vdot (map cconj beta_lit) b)) (matvec OA a)));
    ("Shape of the O_A x <beta| matrix is", Shape [length OA; 6%nat])]).
Proof.
  intros Hnp Ha Hb HOA HOB Hla Hlb HA HB HrA HrB.
  destruct (cell_left_projection_run ns a b OA OB) as [g' Hrun]; try assumption.
  unfold cell_outcome. rewrite Hrun. reflexivity.
Qed.

Lemma cell_left_projection_sides_agree_witness :
  cell_outcome cell_left_projection
    (run_history [cell_vectors; cell_swapped; cell_operators; cell_basis]) =
  (Ok tt,
   [("LHS1: ", Arr1 [(9, 3); (24, 8); (3, 1)]%Z);
    ("RHS1: ", Arr1 [(9, 3); (24, 8); (3, 1)]%Z);
    ("Shape of the <alpha| x O_B matrix is", Shape [3; 6]%nat);
    ("LHS2: ", Arr1 [(-8, 19); (-13, -1)]%Z);
    ("RHS2: ", Arr1 [(-8, 19); (-13, -1)]%Z);
    ("Shape of the O_A x <beta| matrix is", Shape [2; 6]%nat)]).
Proof.
  refine (cell_left_projection_sides_agree _
            [(2, 1); (0, 1)]%Z [(0, -1); (2, 0); (1, -1)]%Z
            [[(2, 0); (1, 0)]; [(0, 1); (1, 0)]]%Z
            [[(1, 0); (0, 2); (3, 0)]; [(0, 0); (4, 0); (0, 0)];
             [(1, 0); (0, 0); (0, 1)]]%Z _ _ _ _ _ _ _ _ _ _ _);
    try (vm_compute; reflexivity); try discriminate; repeat constructor.
Defined.

Lemma load_missing (x : string) (k : kernel) :
  globals k !! x = None -> load x k = (Raise (NameError x), k).
Proof. intros H. unfold load. rewrite H. reflexivity. Qed.

Lemma assign_raise (x : string) (e : M value) (k k' : kernel) (e0 : exn) :
  e k = (Raise e0, k') -> assign x e k = (Raise e0, k').
Proof. intros H. unfold assign. apply bind_raise. exact H. Qed.

Lemma call_kron_raise_r (x y : M value) (k : kernel) (a : value) (e0 : exn) :
  globals k !! "np" = Some Module_numpy ->
  evals x k a -> y k = (Raise e0, k) ->
  call_kron x y k = (Raise e0, k).
Proof.
  intros Hnp Hx Hy. unfold call_kron.
  rewrite (bind_run _ _ _ _ _ (np_attr_run k Hnp)), (bind_run _ _ _ _ _ Hx).
  apply bind_raise. exact Hy.
Qed.

(** X12: a name the cell needs and no earlier cell has defined stops it
    with a NameError before anything is printed: [np] at its first
    statement, [OB] at its second. *)
Theorem cell_left_projection_missing_name (ns : gmap string value) :
  (ns !! "np" = None ->
   cell_outcome cell_left_projection ns = (Raise (NameError "np"), [])) /\
  (ns !! "np" = Some Module_numpy -> ns !! "OB" = None ->
   cell_outcome cell_left_projection ns = (Raise (NameError "OB"), [])).
Proof.
  split.
  - intros Hnp. unfold cell_outcome, run_cell, cell_left_projection.
    erewrite bind_raise.
    2:{ unfold assign, np_array, bind, np_attr. cbn [globals]. rewrite Hnp. reflexivity. }
    reflexivity.
  - intros Hnp HOB. unfold cell_outcome, run_cell, cell_left_projection.
    run_stmt. cbv beta.
    erewrite bind_raise.
    2:{ apply assign_raise.
        eapply call_kron_raise_r; [lookup | evals_tac | apply load_missing; lookup]. }
    reflexivity.
Qed.

Lemma cell_left_projection_missing_name_witness :
  cell_outcome cell_left_projection (run_history [cell_vectors]) =
  (Raise (NameError "OB"), []).
Proof.
  apply (proj2 (cell_left_projection_missing_name (run_history [cell_vectors])));
    vm_compute; reflexivity.
Defined.

Lemma map_vdot_kron_l (a' b' x : list cnum) (B : list (list cnum)) :
  rectangular (length b') B ->
  map (vdot (kron1 a' b')) (map (kron1 x) B) =
  map (cmul (vdot a' x)) (map (vdot b') B).
Proof.
  intros H. rewrite !map_map.
  induction H as [|r B Hr HB IH]; [reflexivity|].
  cbn [map]. rewrite vdot_kron1 by (symmetry; exact Hr). f_equal. exact IH.
Qed.

Lemma map_vdot_kron_r (a' b' y : list cnum) (A : list (list cnum)) :
  length b' = length y ->
  map (vdot (kron1 a' b')) (map (fun r => kron1 r y) A) =
  map (cmul (vdot b' y)) (map (vdot a') A).
Proof.
  intros H. rewrite !map_map. apply map_ext. intros r.
  rewrite vdot_kron1 by exact H. apply cmul_comm.
Qed.

Lemma cell_right_projection_run
    (ns : gmap string value) (a b alpha beta : list cnum) (OA OB : list (list cnum)) :
  ns !! "np" = Some Module_numpy ->
  ns !! "a" = Some (Arr1 a) -> ns !! "b" = Some (Arr1 b) ->
  ns !! "alpha" = Some (Arr1 alpha) -> ns !! "beta" = Some (Arr1 beta) ->
  ns !! "OA" = Some (Arr2 OA) -> ns !! "OB" = Some (Arr2 OB) ->
  length alpha = length a -> length beta = length b ->
  length OA = length a -> length OB = length b ->
  (0 < length a)%nat -> (0 < length b)%nat ->
  (0 < ncols OA)%nat -> (0 < ncols OB)%nat ->
  exists g',
  run_cell cell_right_projection ns =
  (Ok tt, mkKernel g'
   [("LHS1: ", Arr1 (map (cmul (vdot (map cconj a) alpha))
                         (map (vdot (map cconj b)) (transpose OB))));
    ("RHS1: ", Arr1 (map (cmul (vdot (map cconj a) alpha))
                         (map (vdot (map cconj b)) (transpose OB))));
    ("LHS2: ", Arr1 (map (cmul (vdot (map cconj b) beta))
                         (map (vdot (map cconj a)) (transpose OA))));
    ("RHS2: ", Arr1 (map (cmul (vdot (map cconj b) beta))
                         (map (vdot (map cconj a)) (transpose OA))))]).
Proof.
  intros Hnp Ha Hb Hal Hbe HOA HOB Hlal Hlbe HlA HlB Hpa Hpb HcA HcB.
  eexists. unfold run_cell, cell_right_projection.
  do 5 run_stmt. cbv beta.
  erewrite print_expr_run; [|evals_tac].
  cbn [stdout globals app].
  rewrite kron2_single_l, kron2_single_r, kron1_conj.
  rewrite (transpose_involutive (length alpha * length OB)).
  2:{ rewrite Hlal, HlB. nia. }
  2:{ apply rectangular_map_kron1_l, transpose_rectangular. }
  rewrite (transpose_involutive (length OA * length beta)).
  2:{ rewrite HlA, Hlbe. nia. }
  2:{ apply rectangular_map_kron1_r, transpose_rectangular. }
  rewrite map_vdot_kron_l by (rewrite length_map, <- HlB; apply transpose_rectangular).
  rewrite map_vdot_kron_r by (rewrite length_map; symmetry; exact Hlbe).
  reflexivity.
Qed.

(** X11: whatever vectors [a], [alpha] (of one length) and [b], [beta] (of
    one length) and operators [OA] (as many rows as [a] has entries) and
    [OB] (as many rows as [b]) the earlier cells left, the right-projection
    cell raises nothing and prints equal sides:
    LHS1 = RHS1 = <a|alpha> (<b| OB) and LHS2 = RHS2 = <b|beta> (<a| OA). *)
Theorem cell_right_projection_sides_agree
    (ns : gmap string value) (a b alpha beta : list cnum) (OA OB : list (list cnum)) :
  ns !! "np" = Some Module_numpy ->
  ns !! "a" = Some (Arr1 a) -> ns !! "b" = Some (Arr1 b) ->
  ns !! "alpha" = Some (Arr1 alpha) -> ns !! "beta" = Some (Arr1 beta) ->
  ns !! "OA" = Some (Arr2 OA) -> ns !! "OB" = Some (Arr2 OB) ->
  length alpha = length a -> length beta = length b ->
  length OA = length a -> length OB = length b ->
  (0 < length a)%nat -> (0 < length b)%nat ->
  (0 < ncols OA)%nat -> (0 < ncols OB)%nat ->
  cell_outcome cell_right_projection ns =
  (Ok tt,
   [("LHS1: ", Arr1 (map (cmul (vdot (map cconj a) alpha))
                         (map (vdot (map cconj b)) (transpose OB))));
    ("RHS1: ", Arr1 (map (cmul (vdot (map cconj a) alpha))
                         (map (vdot (map cconj b)) (transpose OB))));
    ("LHS2: ", Arr1 (map (cmul (vdot (map cconj b) beta))
                         (map (vdot (map cconj a)) (transpose OA))));
    ("RHS2: ", Arr1 (map (cmul (vdot (map cconj b) beta))
                         (map (vdot (map cconj a)) (transpose OA))))]).
Proof.
  intros Hnp Ha Hb Hal Hbe HOA HOB Hlal Hlbe HlA HlB Hpa Hpb HcA HcB.
  destruct (cell_right_projection_run ns a b alpha beta OA OB) as [g' Hrun];
    try assumption.
  unfold cell_outcome. rewrite Hrun. reflexivity.
Qed.

Lemma cell_right_projection_sides_agree_witness :
  cell_outcome cell_right_projection
    (run_history [cell_vectors; cell_swapped; cell_operators; cell_basis;
                  cell_left_projection]) =
  (Ok tt,
   [("LHS1: ", Arr1 [(5, 5); (18, -6); (1, 13)]%Z);
    ("RHS1: ", Arr1 [(5, 5); (18, -6); (1, 13)]%Z);
    ("LHS2: ", Arr1 [(-3, -22); (-6, -10)]%Z);
    ("RHS2: ", Arr1 [(-3, -22); (-6, -10)]%Z)]).
Proof.
  refine (cell_right_projection_sides_agree _
            [(2, 1); (0, 1)]%Z [(0, -1); (2, 0); (1, -1)]%Z alpha_lit beta_lit
            [[(2, 0); (1, 0)]; [(0, 1); (1, 0)]]%Z
            [[(1, 0); (0, 2); (3, 0)]; [(0, 0); (4, 0); (0, 0)];
             [(1, 0); (0, 0); (0, 1)]]%Z _ _ _ _ _ _ _ _ _ _ _ _ _ _ _);
    try (vm_compute; reflexivity); cbn; lia.
Defined.

(** *** What a cell assigns *)

Section writes.
Context {A B : Type}.

Lemma modifies_only_lift (ws : list string) (r : result A) : modifies_only ws (lift r).
Proof. intros k x _. reflexivity. Qed.

Lemma modifies_only_bind (ws : list string) (m : M A) (f : A -> M B) :
  modifies_only ws m -> (forall a, modifies_only ws (f a)) ->
  modifies_only ws (bind m f).
Proof.
  intros Hm Hf k x Hx. unfold bind.
  specialize (Hm k x Hx). destruct (m k) as [[a|e] k']; simpl in *.
  - rewrite (Hf a k' x Hx). exact Hm.
  - exact Hm.
Qed.

End writes.

Lemma modifies_only_load (ws : list string) (x : string) : modifies_only ws (load x).
Proof. intros k y _. unfold load. destruct (globals k !! x); reflexivity. Qed.

Lemma modifies_only_np_attr (ws : list string) : modifies_only ws np_attr.
Proof.
  intros k y _. unfold np_attr. destruct (globals k !! "np") as [[]|]; reflexivity.
Qed.

Lemma modifies_only_store (ws : list string) (x : string) (v : value) :
  In x ws -> modifies_only ws (store x v).
Proof.
  intros Hx k y Hy. cbn. apply lookup_insert_ne. intros ->. contradiction.
Qed.

Lemma modifies_only_print (ws : list string) (label : string) (v : value) :
  modifies_only ws (print label v).
Proof. intros k y _. reflexivity. Qed.

(** Statements one after another, then the expressions inside them. *)
Ltac writes :=
  unfold assign, print_expr, call_kron, call_dot, times, conj_of, T_of, shape_of,
    np_array;
  repeat lazymatch goal with
    | |- modifies_only _ (bind _ _) => apply modifies_only_bind; [|intros ?]
    | |- modifies_only _ (lift _) => apply modifies_only_lift
    | |- modifies_only _ (load _) => apply modifies_only_load
    | |- modifies_only _ np_attr => apply modifies_only_np_attr
    | |- modifies_only _ (store _ _) => apply modifies_only_store; simpl; tauto
    | |- modifies_only _ (print _ _) => apply modifies_only_print
    | |- modifies_only _ (ret _) => intros ? ? ?; reflexivity
    end.

Lemma cell_writes_respected (c : M unit) (ws : list string) :
  In (c, ws) cell_writes -> modifies_only ws c.
Proof.
  unfold cell_writes. simpl.
  intros [H|[H|[H|[H|[H|[H|[]]]]]]]; injection H as <- <-.
  - unfold cell_vectors. writes.
  - unfold cell_swapped. writes.
  - unfold cell_operators. writes.
  - unfold cell_basis. writes.
  - unfold cell_left_projection. writes.
  - unfold cell_right_projection. writes.
Qed.

(** X13: a cell changes only the names it assigns, whether it runs to the
    end or stops at an exception: every other global name has the value it
    had before.  In particular the projection cells never rebind the
    vectors and operators they read. *)
Theorem cell_changes_only_its_writes
    (c : M unit) (ws : list string) (ns : gmap string value) (x : string) :
  In (c, ws) cell_writes ->
  ~ In x ws ->
  namespace_after c ns !! x = ns !! x.
Proof.
  intros Hc Hx. unfold namespace_after, run_cell.
  exact (cell_writes_respected c ws Hc (mkKernel ns []) x Hx).
Qed.

Lemma cell_changes_only_its_writes_witness :
  namespace_after cell_left_projection
    (run_history [cell_vectors; cell_swapped; cell_operators]) !! "OB" =
  run_history [cell_vectors; cell_swapped; cell_operators] !! "OB".
Proof.
  apply (cell_changes_only_its_writes cell_left_projection
           ["alpha"; "projector"; "beta"]).
  - simpl. tauto.
  - simpl. intros [H|[H|[H|[]]]]; discriminate H.
Defined.

Lemma nth_kron1 (a b : list cnum) (i j : nat) :
  (i < length a)%nat -> (j < length b)%nat ->
  nth (i * length b + j) (kron1 a b) (0, 0)%Z =
  cmul (nth i a (0, 0)%Z) (nth j b (0, 0)%Z).
Proof.
  revert i. induction a as [|x a IH]; intros i Hi Hj; [simpl in Hi; lia|].
  unfold kron1. cbn [flat_map]. fold (kron1 a b).
  destruct i as [|i].
  - cbn [Nat.mul Nat.add nth]. rewrite app_nth1 by (rewrite length_map; exact Hj).
    rewrite (nth_indep _ _ (cmul x (0, 0)%Z)) by (rewrite length_map; exact Hj).
    apply map_nth.
  - rewrite app_nth2 by (rewrite length_map; lia).
    rewrite length_map.
    replace (S i * length b + j - length b)%nat with (i * length b + j)%nat by lia.
    cbn [nth]. apply IH; [simpl in Hi; lia | exact Hj].
Qed.

(** X14: whatever vectors [a] and [b] the earlier cells left, In [2]
    prints [kron(b, a)], which has the entries of [kron(a, b)] with the two
    indices exchanged: entry j * len(a) + i of the one is entry
    i * len(b) + j of the other. *)
Theorem cell_swapped_permutes
    (ns : gmap string value) (a b : list cnum) :
  ns !! "np" = Some Module_numpy ->
  ns !! "a" = Some (Arr1 a) -> ns !! "b" = Some (Arr1 b) ->
  cell_outcome cell_swapped ns = (Ok tt, [("", Arr1 (kron1 b a))]) /\
  length (kron1 b a) = length (kron1 a b) /\
  forall i j, (i < length a)%nat -> (j < length b)%nat ->
    nth (j * length a + i) (kron1 b a) (0, 0)%Z =
    nth (i * length b + j) (kron1 a b) (0, 0)%Z.
Proof.
  intros Hnp Ha Hb. split; [|split].
  - unfold cell_outcome, run_cell, cell_swapped.
    run_stmt. cbv beta. erewrite print_expr_run; [|evals_tac]. reflexivity.
  - rewrite !kron1_length. lia.
  - intros i j Hi Hj. rewrite !nth_kron1 by assumption. apply cmul_comm.
Qed.

Lemma cell_swapped_permutes_witness :
  cell_outcome cell_swapped (run_history [cell_vectors]) =
  (Ok tt, [("", Arr1 [(2, 0); (-1, 0); (4, 0); (-2, 0); (6, 0); (-3, 0)]%Z)]).
Proof.
  refine (proj1 (cell_swapped_permutes _ [(2, 0); (-1, 0)]%Z
                   [(1, 0); (2, 0); (3, 0)]%Z _ _ _));
    vm_compute; reflexivity.
Defined.

(** *** Running a cell again *)

Lemma rerun_outcome (c : M unit) (xs ws : list string) :
  In (c, xs) cell_reads -> In (c, ws) cell_writes ->
  (forall x, In x xs -> ~ In x ws) ->
  forall ns, cell_outcome c (namespace_after c ns) = cell_outcome c ns.
Proof.
  intros Hr Hw Hdisj ns.
  destruct (cell_reads_respected c xs Hr) as [ys Hys].
  apply (respects_outcome xs ys c Hys).
  intros x Hx. unfold namespace_after, run_cell.
  exact (cell_writes_respected c ws Hw (mkKernel ns []) x (Hdisj x Hx)).
Qed.

(** X15: no cell of the notebook assigns a name that it reads from earlier
    cells, so running a cell a second time, right after the first, gives
    the same result: the same exception or the same printed output. *)
Theorem cell_rerun_same_result (c : M unit) (ns : gmap string value) :
  In c notebook ->
  cell_outcome c (namespace_after c ns) = cell_outcome c ns.
Proof.
  unfold notebook. simpl.
  intros [<-|[<-|[<-|[<-|[<-|[<-|[]]]]]]].
  - apply (rerun_outcome _ [] ["np"; "a"; "b"; "psi"]);
      [simpl; tauto | simpl; tauto | intros x []].
  - apply (rerun_outcome _ ["np"; "a"; "b"] ["foo"]);
      [simpl; tauto | simpl; tauto |].
    intros x Hx Hw. simpl in Hx, Hw. intuition congruence.
  - apply (rerun_outcome _ ["np"] ["a"; "b"; "OA"; "OB"; "O_total"; "OAa"; "OBb"]);
      [simpl; tauto | simpl; tauto |].
    intros x Hx Hw. simpl in Hx, Hw. intuition congruence.
  - apply (rerun_outcome _ ["np"] ["m"; "n"; "p"; "q"; "r"]);
      [simpl; tauto | simpl; tauto |].
    intros x Hx Hw. simpl in Hx, Hw. intuition congruence.
  - apply (rerun_outcome _ reads_left_projection ["alpha"; "projector"; "beta"]);
      [simpl; tauto | simpl; tauto |].
    intros x Hx Hw. simpl in Hx, Hw. intuition congruence.
  - apply (rerun_outcome _ reads_right_projection ["projector1"; "projector2"]);
      [simpl; tauto | simpl; tauto |].
    intros x Hx Hw. simpl in Hx, Hw. intuition congruence.
Qed.

Lemma cell_rerun_same_result_witness :
  cell_outcome cell_left_projection
    (namespace_after cell_left_projection (run_history [cell_vectors])) =
  cell_outcome cell_left_projection (run_history [cell_vectors]).
Proof.
  apply cell_rerun_same_result. unfold notebook. simpl. tauto.
Defined.

End NotebookFacts.
